(** * Home-Security-Chatbot: the per-client session cache of [main.go]

    A shallow embedding of the chat back end (the version of [main.go] that
    keeps one [ChatSession] per client address in a [sync.Map]) and the
    properties of its session store, request handler and idle sweeper.

    The Go program is modelled with explicit state passing: the package-level
    variables ([chatSessions], [client], [clientErr]), the objects allocated
    by [&ChatSession{...}] and the log output make up a [World]; everything
    the program obtains from outside (process environment, clock, the
    provider's answers) is an [Env].  A handler invocation and one sweep
    cycle are the atomic steps of the model. *)

From Stdlib Require Import ZArith QArith_base.
From stdpp Require Import base option list strings gmap fin_maps.

Local Open Scope string_scope.
Local Open Scope list_scope.

(** ** Go's [error] values as the program builds them *)

(** [errorString] is what [fmt.Errorf] returns for a format without [%w]
    (and what any foreign error looks like from here); [wrapError] is what
    it returns for a format with one [%w]. *)
Inductive error : Type :=
  | errorString (s : string)
  | wrapError (msg : string) (err : error).

Definition Error (e : error) : string :=
  match e with
  | errorString s => s
  | wrapError msg _ => msg
  end.


(** [fmt.Errorf(prefix + "%w", err)]: the text is the prefix followed by the
    text of [err], and [err] is kept as the wrapped error. *)
Definition Errorf_w (prefix : string) (err : error) : error :=
  wrapError (prefix +:+ Error err) err.

(** ** [time.Time] and [time.Duration] *)

Module time.

(** A reading of the monotonic clock, in nanoseconds.  Both operands of
    every [Sub] in the program come from [time.Now()], so the monotonic
    readings are the ones compared. *)
Local Open Scope Z_scope.

Definition Time := Z.

(** [time.Duration] is an [int64] count of nanoseconds. *)
Definition Duration := Z.

Definition Nanosecond : Duration := 1.
Definition Microsecond : Duration := 1000 * Nanosecond.
Definition Millisecond : Duration := 1000 * Microsecond.
Definition Second : Duration := 1000 * Millisecond.
Definition Minute : Duration := 60 * Second.

Definition minDuration : Duration := - 2 ^ 63.
Definition maxDuration : Duration := 2 ^ 63 - 1.

(** [t.Sub(u)]: the difference, saturated to the range of [Duration]
    ("if the result exceeds the maximum (or minimum) value that can be
    stored in a Duration, the maximum (or minimum) duration will be
    returned"). *)
Definition Sub (t u : Time) : Duration :=
  if t - u <? minDuration then minDuration
  else if maxDuration <? t - u then maxDuration
  else t - u.

End time.

(** ** The part of the [genai] client library the program touches *)

Module genai.

(** [genai.Part] is an interface; [Text] is the one dynamic type the
    program asserts on, [Blob] stands for the others. *)
Inductive Part : Type :=
  | Text (s : string)
  | Blob (MIMEType : string) (Data : list Z).

Record Content : Type := { Parts : list Part; Role : string }.

(** [Candidate.Content] is a [*Content] and may be nil. *)
Record Candidate : Type := { Content_ : option Content }.

Record GenerateContentResponse : Type := { Candidates : list Candidate }.

Record Client : Type := { apiKey : string }.

(** The configuration [generateGeminiResponse] sets on every model it
    builds.  The two [float32] settings are carried as rationals; nothing
    computes on them. *)
Record GenerativeModel : Type := {
  fullName : string;
  Temperature : Q;
  TopK : Z;
  TopP : Q;
  MaxOutputTokens : Z;
  ResponseMIMEType : string;
  SystemInstruction : Content
}.

(** The conversation: the model it talks to and the turns so far. *)
Record ChatSession : Type := { m : GenerativeModel; History : list Content }.

(** [model.StartChat()] *)
Definition StartChat (model : GenerativeModel) : ChatSession :=
  {| m := model; History := [] |}.

End genai.

(** ** The program's own types *)

(** [type ChatSession struct { Session *genai.ChatSession; LastUsed time.Time }].
    The [*genai.ChatSession] is created by [StartChat] for this struct alone
    and is reachable only through it, so it is stored in place. *)
Record ChatSession : Type := {
  Session : genai.ChatSession;
  LastUsed : time.Time
}.

(** A value of type [any] as it can sit in [chatSessions]: a [*ChatSession]
    (an address in the heap of allocated [ChatSession]s), or a value of some
    other dynamic type, for which the type assertion fails. *)
Inductive any : Type :=
  | ptrChatSession (p : nat)
  | otherValue (v : string).

(** The package-level state, the allocated [ChatSession] objects, the
    counters of the calls made to the outside and the log. *)
Record World : Type := {
  chatSessions : gmap string any;      (* [chatSessions = sync.Map{}] *)
  heap : list ChatSession;             (* objects made by [&ChatSession{...}] *)
  client : option genai.Client;        (* [client *genai.Client], nil = None *)
  clientErr : option error;            (* [clientErr error], nil = None *)
  clockReads : nat;                    (* calls to [time.Now] so far *)
  newClientCalls : nat;                (* calls to [genai.NewClient] so far *)
  sendCalls : nat;                     (* calls to [SendMessage] so far *)
  logs : list string                   (* lines written by [log.Printf] *)
}.

(** The state at process start. *)
Definition init : World :=
  {| chatSessions := ∅; heap := []; client := None; clientErr := None;
     clockReads := 0; newClientCalls := 0; sendCalls := 0; logs := [] |}.

Definition set_chatSessions (s : gmap string any) (w : World) : World :=
  {| chatSessions := s; heap := heap w; client := client w;
     clientErr := clientErr w; clockReads := clockReads w;
     newClientCalls := newClientCalls w; sendCalls := sendCalls w; logs := logs w |}.

Definition set_heap (h : list ChatSession) (w : World) : World :=
  {| chatSessions := chatSessions w; heap := h; client := client w;
     clientErr := clientErr w; clockReads := clockReads w;
     newClientCalls := newClientCalls w; sendCalls := sendCalls w; logs := logs w |}.

Definition set_client (c : option genai.Client) (e : option error) (w : World) : World :=
  {| chatSessions := chatSessions w; heap := heap w; client := c;
     clientErr := e; clockReads := clockReads w;
     newClientCalls := S (newClientCalls w); sendCalls := sendCalls w; logs := logs w |}.

Definition tick_clock (w : World) : World :=
  {| chatSessions := chatSessions w; heap := heap w; client := client w;
     clientErr := clientErr w; clockReads := S (clockReads w);
     newClientCalls := newClientCalls w; sendCalls := sendCalls w; logs := logs w |}.

Definition tick_send (w : World) : World :=
  {| chatSessions := chatSessions w; heap := heap w; client := client w;
     clientErr := clientErr w; clockReads := clockReads w;
     newClientCalls := newClientCalls w; sendCalls := S (sendCalls w); logs := logs w |}.

Definition add_log (line : string) (w : World) : World :=
  {| chatSessions := chatSessions w; heap := heap w; client := client w;
     clientErr := clientErr w; clockReads := clockReads w;
     newClientCalls := newClientCalls w; sendCalls := sendCalls w;
     logs := logs w ++ [line] |}.

(** What the program gets from outside.  The process environment is read
    but never written after start-up, so it is one function; the clock and
    the provider answer each call separately, so they are indexed by the
    number of calls made before. *)
Record Env : Type := {
  LookupEnv : string -> option string;
  Now : nat -> time.Time;
  NewClient : nat -> string -> genai.Client + error;
  SendMessage : nat -> genai.ChatSession -> string ->
                genai.ChatSession * (genai.GenerateContentResponse + error)
}.

(** ** A state monad with panics *)

Inductive Res (A : Type) : Type :=
  | Val (a : A)
  | Panic (msg : string).
Arguments Val {A} a.
Arguments Panic {A} msg.

Definition M (A : Type) : Type := World -> Res A * World.

Definition ret {A} (a : A) : M A := fun w => (Val a, w).

Definition bind {A B} (c : M A) (k : A -> M B) : M B :=
  fun w =>
    match c w with
    | (Val a, w') => k a w'
    | (Panic msg, w') => (Panic msg, w')
    end.

Definition panic {A} (msg : string) : M A := fun w => (Panic msg, w).

Notation "x <- c1 ;; c2" := (bind c1 (fun x => c2))
  (at level 100, c1 at next level, right associativity).
Notation "c1 ;;; c2" := (bind c1 (fun _ => c2))
  (at level 100, right associativity).

(** ** Requests and responses *)

(** The request as the handler sees it: the client address [c.IP()] and
    what [c.BodyParser(req)] makes of the body. *)
Record Request : Type := { Message : string }.

Record Ctx : Type := {
  IP : string;
  BodyParser : Request + error
}.

(** A response: the status and the one-entry JSON object of the body. *)
Record Response : Type := {
  Status : nat;
  JSON : list (string * string)
}.

Definition StatusOK : nat := 200.
Definition StatusBadRequest : nat := 400.
Definition StatusInternalServerError : nat := 500.

(** What happens to the process: a request arrives, or the sweeper wakes. *)
Inductive Event : Type :=
  | Chat (c : Ctx)
  | Wake.

(** ** The program *)

Section Program.

Variable E : Env.

(** *** Primitives: clock, log, heap, [sync.Map] *)

(** [time.Now()] *)
Definition time_Now : M time.Time :=
  fun w => (Val (Now E (clockReads w)), tick_clock w).

(** [log.Printf], with the line already formatted *)
Definition log_Printf (line : string) : M unit :=
  fun w => (Val tt, add_log line w).

(** [&ChatSession{...}]: a new object at the next free address *)
Definition new_ChatSession (cs : ChatSession) : M nat :=
  fun w => (Val (length (heap w)), set_heap (heap w ++ [cs]) w).

(** Reading through a [*ChatSession] *)
Definition load (p : nat) : M ChatSession :=
  fun w =>
    match heap w !! p with
    | Some cs => (Val cs, w)
    | None => (Panic "invalid memory address or nil pointer dereference", w)
    end.

(** [cs.LastUsed = t] *)
Definition store_LastUsed (p : nat) (t : time.Time) : M unit :=
  cs <- load p ;;
  fun w => (Val tt, set_heap (<[p := {| Session := Session cs; LastUsed := t |}]> (heap w)) w).

(** [cs.Session.SendMessage(ctx, genai.Text(userInput))]: the provider
    sees this conversation only, and may change its history. *)
Definition Session_SendMessage (p : nat) (userInput : string)
  : M (genai.GenerateContentResponse + error) :=
  cs <- load p ;;
  fun w =>
    let '(session', r) := SendMessage E (sendCalls w) (Session cs) userInput in
    (Val r,
     tick_send (set_heap (<[p := {| Session := session'; LastUsed := LastUsed cs |}]> (heap w)) w)).

(** [chatSessions.LoadOrStore(key, value)] *)
Definition LoadOrStore (key : string) (value : any) : M (any * bool) :=
  fun w =>
    match chatSessions w !! key with
    | Some actual => (Val (actual, true), w)
    | None => (Val (value, false), set_chatSessions (<[key := value]> (chatSessions w)) w)
    end.

(** [chatSessions.Delete(key)] *)
Definition Delete (key : string) : M unit :=
  fun w => (Val tt, set_chatSessions (delete key (chatSessions w)) w).

(** [chatSessions.Range(f)]: [f] is called on the entries in turn until
    it returns false.  The only writer during a sweep is [f] itself, which
    deletes nothing but the key it is visiting, so the entries are those
    present when [Range] starts. *)
Fixpoint Range_loop (f : string -> any -> M bool) (entries : list (string * any)) : M unit :=
  match entries with
  | [] => ret tt
  | (key, value) :: rest =>
      continue <- f key value ;;
      if continue : bool then Range_loop f rest else ret tt
  end.

Definition Range (f : string -> any -> M bool) : M unit :=
  fun w => Range_loop f (map_to_list (chatSessions w)) w.

(** Line 237: the type assertion of [session] to [*ChatSession], in its
    panicking form *)
Definition assert_ChatSession (v : any) : M nat :=
  match v with
  | ptrChatSession p => ret p
  | otherValue _ => panic "interface conversion: interface {} is not *main.ChatSession"
  end.

(** *** [generateGeminiResponse] *)

Definition systemPrompt : string :=
  "You are a specialized AI assistant for home security systems. Answer the following question about home security. If the question is not related to home security, politely decline to answer and explain that you only answer questions about home security systems, cameras, alarms, sensors, etc. Keep responses concise, informative, and helpful for home owners. If the user asks you to control a home security device, behave as if you have done it.".

(** The model as configured by lines 227-234. *)
Definition model : genai.GenerativeModel :=
  {| genai.fullName := "gemini-2.0-flash";
     genai.Temperature := Qmake 1 1;
     genai.TopK := 40;
     genai.TopP := Qmake 95 100;
     genai.MaxOutputTokens := 8192;
     genai.ResponseMIMEType := "text/plain";
     genai.SystemInstruction :=
       {| genai.Parts := [genai.Text systemPrompt]; genai.Role := "" |} |}.

(** Lines 216-225: the shared client is made on first use; a failure to
    make it is kept in [clientErr].  The result is the client to use, or
    the error to return. *)
Definition ensureClient (apiKey : string) : M (genai.Client + error) :=
  fun w =>
    let w1 :=
      match client w, clientErr w with
      | None, None =>
          match NewClient E (newClientCalls w) apiKey with
          | inl c => set_client (Some c) None w
          | inr e => set_client None (Some e) w
          end
      | _, _ => w
      end in
    match clientErr w1 with
    | Some e => (Val (inr (Errorf_w "Error creating AI client: " e)), w1)
    | None =>
        match client w1 with
        | Some c => (Val (inl c), w1)
        | None => (Panic "invalid memory address or nil pointer dereference", w1)
        end
    end.

(** Line 236: the store lookup.  The candidate entity is built before
    [LoadOrStore] is called, as Go evaluates the arguments first. *)
Definition getOrCreate (ip : string) : M (any * bool) :=
  t <- time_Now ;;
  p <- new_ChatSession {| Session := genai.StartChat model; LastUsed := t |} ;;
  LoadOrStore ip (ptrChatSession p).

(** Lines 246-252: the text of the first part of the first candidate. *)
Definition firstText (resp : genai.GenerateContentResponse) : M (string * option error) :=
  match genai.Candidates resp with
  | [] => ret ("No response generated.", Some (errorString "no valid candidates found in response"))
  | c0 :: _ =>
      match genai.Content_ c0 with
      | None => panic "invalid memory address or nil pointer dereference"
      | Some content =>
          match genai.Parts content with
          | genai.Text text :: _ => ret (text, None)
          | _ => ret ("No response generated.", Some (errorString "no valid candidates found in response"))
          end
      end
  end.

(** Lines 238-252: the exchange on the session [cs] points to.  The
    time stamp is written before the provider is called. *)
Definition exchange (cs : nat) (userInput : string) : M (string * option error) :=
  t <- time_Now ;;
  store_LastUsed cs t ;;;
  r <- Session_SendMessage cs userInput ;;
  match r with
  | inr err =>
      log_Printf ("Error sending message to Gemini: " +:+ Error err) ;;;
      ret ("", Some (Errorf_w "Error sending message: " err))
  | inl resp => firstText resp
  end.

Definition generateGeminiResponse (ip userInput : string) : M (string * option error) :=
  match LookupEnv E "GEMINI_API_KEY" with
  | None => ret ("", Some (errorString "GEMINI_API_KEY environment variable not set"))
  | Some apiKey =>
      c <- ensureClient apiKey ;;
      match c with
      | inr err => ret ("", Some err)
      | inl _ =>
          session <- getOrCreate ip ;;
          cs <- assert_ChatSession (fst session) ;;
          exchange cs userInput
      end
  end.

(** *** [handleChat] *)

Definition handleChat (c : Ctx) : M Response :=
  match BodyParser c with
  | inr err =>
      log_Printf ("Error parsing request body from " +:+ IP c +:+ ": " +:+ Error err) ;;;
      ret {| Status := StatusBadRequest; JSON := [("error", "Invalid request body")] |}
  | inl req =>
      let ip := IP c in
      r <- generateGeminiResponse ip (Message req) ;;
      match snd r with
      | Some err =>
          log_Printf ("Error generating Gemini response for " +:+ ip +:+ ": " +:+ Error err) ;;;
          ret {| Status := StatusInternalServerError; JSON := [("error", Error err)] |}
      | None => ret {| Status := StatusOK; JSON := [("response", fst r)] |}
      end
  end.

(** *** [cleanupSessions] *)

(** The function passed to [Range] on lines 260-272. *)
Definition sweepEntry (now : time.Time) (key : string) (value : any) : M bool :=
  match value with
  | otherValue _ =>
      log_Printf ("Unexpected value type in chatSessions for key " +:+ key) ;;;
      ret true
  | ptrChatSession p =>
      cs <- load p ;;
      if (time.Sub now (LastUsed cs) >? 30 * time.Minute)%Z then
        Delete key ;;;
        log_Printf ("Deleted inactive session for IP: " +:+ key) ;;;
        ret true
      else ret true
  end.

(** One turn of the [for] loop, after the sleep. *)
Definition sweep : M unit :=
  now <- time_Now ;;
  Range (sweepEntry now).

(** [cleanupSessions] never returns; [n] turns of its loop. *)
Fixpoint cleanupSessions (n : nat) : M unit :=
  match n with
  | O => ret tt
  | S n' => sweep ;;; cleanupSessions n'
  end.

(** *** Runs of the process *)

Definition step (w : World) (ev : Event) : World :=
  match ev with
  | Chat c => snd (handleChat c w)
  | Wake => snd (sweep w)
  end.

Definition run (w : World) (evs : list Event) : World :=
  fold_left step evs w.

End Program.

(** ** Vocabulary of the properties *)

(** [post c w Q]: running [c] from [w] ends in a result and a world that
    satisfy [Q].  [Q] may speak of [w], so it relates the two worlds. *)
Definition post {A} (c : M A) (w : World) (Q : Res A -> World -> Prop) : Prop :=
  Q (fst (c w)) (snd (c w)).

(** Two worlds with the same session store, objects and counters of the
    clock and the provider. *)
Record same_sessions (w w1 : World) : Prop := {
  same_store : chatSessions w1 = chatSessions w;
  same_heap : heap w1 = heap w;
  same_clock : clockReads w1 = clockReads w;
  same_sends : sendCalls w1 = sendCalls w
}.

(** Every value in the store is a [*ChatSession] that points to an
    allocated object. *)
Definition sessions_valid (w : World) : Prop :=
  forall key v, chatSessions w !! key = Some v ->
    exists p, v = ptrChatSession p /\ p < length (heap w).

(** No two identifiers share an object. *)
Definition sessions_distinct (w : World) : Prop :=
  forall k1 k2 p,
    chatSessions w !! k1 = Some (ptrChatSession p) ->
    chatSessions w !! k2 = Some (ptrChatSession p) -> k1 = k2.

Definition wf (w : World) : Prop := sessions_valid w /\ sessions_distinct w.



(** The worlds the process can be in. *)
Definition reachable (E : Env) (w : World) : Prop :=
  exists evs, w = run E init evs.

(** What one call of [generateGeminiResponse] for [ip] may do to the store
    and the objects. *)
Record session_step (E : Env) (ip : string) (w w' : World) : Prop := {
  step_store :
    chatSessions w' = chatSessions w \/
    (chatSessions w !! ip = None /\
     chatSessions w' = <[ip := ptrChatSession (length (heap w))]> (chatSessions w) /\
     length (heap w') = S (length (heap w)));
  step_length :
    length (heap w) <= length (heap w') <= S (length (heap w));
  step_old :
    forall q cs, heap w !! q = Some cs ->
      exists cs', heap w' !! q = Some cs' /\
        (cs' = cs \/
         (chatSessions w !! ip = Some (ptrChatSession q) /\
          LastUsed cs' = Now E (S (clockReads w)) /\
          clockReads w' = S (S (clockReads w))));
  step_new :
    forall cs', heap w' !! length (heap w) = Some cs' ->
      S (clockReads w) <= clockReads w' /\
      (LastUsed cs' = Now E (clockReads w) \/
       (LastUsed cs' = Now E (S (clockReads w)) /\
        clockReads w' = S (S (clockReads w))));
  step_clock : clockReads w <= clockReads w'
}.

(** The store after a sweep at [now]: the entries whose object has been
    idle for more than thirty minutes are gone. *)
Definition expired (h : list ChatSession) (now : time.Time) (v : any) : bool :=
  match v with
  | ptrChatSession p =>
      match h !! p with
      | Some cs => (time.Sub now (LastUsed cs) >? 30 * time.Minute)%Z
      | None => false
      end
  | otherValue _ => false
  end.

Definition evict (h : list ChatSession) (now : time.Time)
    (s : gmap string any) (entry : string * any) : gmap string any :=
  if expired h now (snd entry) then delete (fst entry) s else s.

(** The exchange writes one object and nothing else. *)
Record exchange_frame (E : Env) (p : nat) (w w' : World) : Prop := {
  xf_store : chatSessions w' = chatSessions w;
  xf_clock : clockReads w' = S (clockReads w);
  xf_length : length (heap w') = length (heap w);
  xf_others : forall q, q <> p -> heap w' !! q = heap w !! q;
  xf_stamp : forall cs', heap w' !! p = Some cs' -> LastUsed cs' = Now E (clockReads w);
  xf_client : client w' = client w /\ clientErr w' = clientErr w /\
              newClientCalls w' = newClientCalls w
}.

Ltac unfold_prims :=
  unfold getOrCreate, exchange, store_LastUsed, Session_SendMessage,
         assert_ChatSession, time_Now, new_ChatSession, load, LoadOrStore,
         Delete, log_Printf, bind, ret, panic.


(** What a sweep may do: it removes entries and touches nothing else. *)
Record sweep_frame (w w' : World) : Prop := {
  sf_heap : heap w' = heap w;
  sf_store : chatSessions w' ⊆ chatSessions w;
  sf_client : client w' = client w /\ clientErr w' = clientErr w /\
              newClientCalls w' = newClientCalls w
}.

(** The pointers in a list of entries are all allocated. *)
Definition entries_allocated (h : list ChatSession) (entries : list (string * any)) : Prop :=
  forall key p, (key, ptrChatSession p) ∈ entries -> is_Some (h !! p).

(** [n] store lookups in a row for one identifier: what each caller got,
    and the world after the last. *)
Fixpoint lookups (E : Env) (ip : string) (n : nat) (w : World)
    : list (Res (any * bool)) * World :=
  match n with
  | O => ([], w)
  | S n' =>
      let (r, w1) := getOrCreate E ip w in
      let (rs, w') := lookups E ip n' w1 in
      (r :: rs, w')
  end.

(** The number of [ChatSession] objects constructed between two worlds. *)
Definition constructed (w w' : World) : nat :=
  length (heap w') - length (heap w).

(** ** A sample deployment *)

Definition textReply (s : string) : genai.GenerateContentResponse :=
  {| genai.Candidates :=
       [{| genai.Content_ :=
             Some {| genai.Parts := [genai.Text s]; genai.Role := "model" |} |}] |}.

(** The key is set, the client can be made, the clock is read every twelve
    minutes, and the provider answers every call but its second. *)
Definition demoEnv : Env :=
  {| LookupEnv := fun name =>
       if String.eqb name "GEMINI_API_KEY" then Some "secret" else None;
     Now := fun n => (Z.of_nat n * (12 * time.Minute))%Z;
     NewClient := fun _ key => inl {| genai.apiKey := key |};
     SendMessage := fun n session _ =>
       (session,
        if Nat.eqb n 1 then inr (errorString "rate limit exceeded")
        else inl (textReply "The door sensor battery is low.")) |}.

(** The same, but the client cannot be made. *)
Definition brokenEnv : Env :=
  {| LookupEnv := LookupEnv demoEnv;
     Now := Now demoEnv;
     NewClient := fun _ _ => inr (errorString "dial tcp: connection refused");
     SendMessage := SendMessage demoEnv |}.

Definition fromAlice (message : string) : Ctx :=
  {| IP := "10.0.0.5"; BodyParser := inl {| Message := message |} |}.

Definition fromBob (message : string) : Ctx :=
  {| IP := "10.0.0.9"; BodyParser := inl {| Message := message |} |}.

Definition garbled : Ctx :=
  {| IP := "10.0.0.5";
     BodyParser := inr (errorString "unexpected end of JSON input") |}.

(** The same as [demoEnv], but the key is not in the environment. *)
Definition keylessEnv : Env :=
  {| LookupEnv := fun _ => None;
     Now := Now demoEnv;
     NewClient := NewClient demoEnv;
     SendMessage := SendMessage demoEnv |}.

(** The world after one request of Alice, and after one of Alice and one
    of Bob (Bob's exchange is the provider's second call, which fails). *)
Definition afterAlice : World :=
  run demoEnv init [Chat (fromAlice "Is my alarm armed?")].

Definition afterAliceAndBob : World :=
  run demoEnv init [Chat (fromAlice "Is my alarm armed?");
                    Chat (fromBob "Which camera is offline?")].

(** ** Further vocabulary *)



(** Nothing has been stored, allocated or sent yet. *)
Definition untouched (w : World) : Prop :=
  chatSessions w = ∅ /\ heap w = [] /\ newClientCalls w = 0 /\ sendCalls w = 0.

(** The line the sweep logs when it removes [key]. *)
Definition deleted_line (key : string) : string :=
  "Deleted inactive session for IP: " +:+ key.

(** The entity an exchange at clock reading [t] leaves behind: the
    conversation as the provider returned it, stamped [t]. *)
Definition exchanged (E : Env) (n : nat) (before : genai.ChatSession)
    (msg : string) (t : time.Time) : ChatSession :=
  {| Session := fst (SendMessage E n before msg); LastUsed := t |}.

(** What [generateGeminiResponse] returns for an outcome of the provider
    call: lines 241-252 without their log line. *)
Definition reply_of (r : genai.GenerateContentResponse + error)
    : Res (string * option error) :=
  match r with
  | inl resp => fst (firstText resp init)
  | inr err => Val ("", Some (Errorf_w "Error sending message: " err))
  end.

(** Two more deployments: a provider that answers without a candidate, and
    one whose only candidate carries no content. *)
Definition silentEnv : Env :=
  {| LookupEnv := LookupEnv demoEnv;
     Now := Now demoEnv;
     NewClient := NewClient demoEnv;
     SendMessage := fun _ session _ => (session, inl {| genai.Candidates := [] |}) |}.

Definition blockedEnv : Env :=
  {| LookupEnv := LookupEnv demoEnv;
     Now := Now demoEnv;
     NewClient := NewClient demoEnv;
     SendMessage := fun _ session _ =>
       (session, inl {| genai.Candidates := [{| genai.Content_ := None |}] |}) |}.

From Stdlib Require Import Ascii.

(** ** The stateless back ends of [src/unnamed/part_000] and [src/main.go]

    Both earlier versions of the program answer every request on its own:
    a client is made and closed per call and nothing is kept.  They differ
    in one thing: [src/main.go] rewrites the asterisks of the reply. *)

(** What these versions get from outside for one request. *)
Record CallEnv : Type := {
  Environ : string -> option string;
  MakeClient : string -> genai.Client + error;
  GenerateContent : genai.Client -> string -> genai.GenerateContentResponse + error
}.

(** [os.Getenv]: the value, or the empty string when the variable is unset. *)
Definition Getenv (E : CallEnv) (name : string) : string :=
  default "" (Environ E name).

Definition newline : string := String "010"%char EmptyString.

(** [c] repeated [n] times. *)
Fixpoint repeat_string (s : string) (n : nat) : string :=
  match n with
  | O => ""
  | S n' => s +:+ repeat_string s n'
  end.


(** The scan behind [strings.ReplaceAll] for a non-empty [old]: from left
    to right, each position where [old] starts yields [new] and the scan
    resumes after the match ([skip] counts the bytes of a match still to
    pass over); any other byte is copied. *)
Fixpoint replaceFrom (old new : string) (skip : nat) (s : string) : string :=
  match s with
  | EmptyString => EmptyString
  | String c rest =>
      match skip with
      | S skip' => replaceFrom old new skip' rest
      | O =>
          if String.prefix old s
          then new +:+ replaceFrom old new (String.length old - 1) rest
          else String c (replaceFrom old new 0 rest)
      end
  end.

(** [strings.ReplaceAll(s, old, new)].  The program calls it with the
    patterns ["***"], ["**"] and ["*"] only; for the empty pattern, where Go
    inserts [new] between the runes of [s], the string is returned as it
    is. *)
Definition ReplaceAll (s old new : string) : string :=
  match old with
  | EmptyString => s
  | String _ _ => replaceFrom old new 0 s
  end.

Module Part000.

(** [generateGeminiResponse] of [src/unnamed/part_000], lines 51-76. *)
Definition generateGeminiResponse (E : CallEnv) (userInput : string)
    : Res (string * option error) :=
  let apiKey := Getenv E "GEMINI_API_KEY" in
  if String.eqb apiKey "" then
    Val ("", Some (errorString "GEMINI_API_KEY environment variable not set"))
  else
    match MakeClient E apiKey with
    | inr err => Val ("", Some (Errorf_w "Error creating AI client: " err))
    | inl client =>
        match GenerateContent E client userInput with
        | inr err => Val ("", Some (Errorf_w "Error generating content: " err))
        | inl resp =>
            match genai.Candidates resp with
            | [] => Val ("No response generated.",
                         Some (errorString "no valid candidates found in response"))
            | c0 :: _ =>
                match genai.Content_ c0 with
                | None => Panic "invalid memory address or nil pointer dereference"
                | Some content =>
                    match genai.Parts content with
                    | genai.Text text :: _ => Val (text, None)
                    | _ => Val ("No response generated.",
                                Some (errorString "no valid candidates found in response"))
                    end
                end
            end
        end
    end.

(** [handleChat] of [src/unnamed/part_000], lines 32-49. *)
Definition handleChat (E : CallEnv) (c : Ctx) : Res Response :=
  match BodyParser c with
  | inr _ => Val {| Status := StatusBadRequest; JSON := [("error", "Invalid request body")] |}
  | inl req =>
      match generateGeminiResponse E (Message req) with
      | Panic m => Panic m
      | Val (_, Some err) =>
          Val {| Status := StatusInternalServerError; JSON := [("error", Error err)] |}
      | Val (response, None) =>
          Val {| Status := StatusOK; JSON := [("response", response)] |}
      end
  end.

End Part000.

Module MainGo.

(** Lines 85-88 of [src/main.go]: the three replacements, in this order. *)
Definition formatReply (text : string) : string :=
  let ret := text in
  let ret := ReplaceAll ret "***" newline in
  let ret := ReplaceAll ret "**" newline in
  let ret := ReplaceAll ret "*" newline in
  ret.

(** [generateGeminiResponse] of [src/main.go], lines 64-93. *)
Definition generateGeminiResponse (E : CallEnv) (userInput : string)
    : Res (string * option error) :=
  let apiKey := Getenv E "GEMINI_API_KEY" in
  if String.eqb apiKey "" then
    Val ("", Some (errorString "GEMINI_API_KEY environment variable not set"))
  else
    match MakeClient E apiKey with
    | inr err => Val ("", Some (Errorf_w "Error creating AI client: " err))
    | inl client =>
        match GenerateContent E client userInput with
        | inr err => Val ("", Some (Errorf_w "Error generating content: " err))
        | inl resp =>
            match genai.Candidates resp with
            | [] => Val ("No response generated.",
                         Some (errorString "no valid candidates found in response"))
            | c0 :: _ =>
                match genai.Content_ c0 with
                | None => Panic "invalid memory address or nil pointer dereference"
                | Some content =>
                    match genai.Parts content with
                    | genai.Text text :: _ => Val (formatReply text, None)
                    | _ => Val ("No response generated.",
                                Some (errorString "no valid candidates found in response"))
                    end
                end
            end
        end
    end.

(** [handleChat] of [src/main.go], lines 45-62. *)
Definition handleChat (E : CallEnv) (c : Ctx) : Res Response :=
  match BodyParser c with
  | inr _ => Val {| Status := StatusBadRequest; JSON := [("error", "Invalid request body")] |}
  | inl req =>
      match generateGeminiResponse E (Message req) with
      | Panic m => Panic m
      | Val (_, Some err) =>
          Val {| Status := StatusInternalServerError; JSON := [("error", Error err)] |}
      | Val (response, None) =>
          Val {| Status := StatusOK; JSON := [("response", response)] |}
      end
  end.

End MainGo.



(** The number of requests among the events of a run. *)
Fixpoint requests (evs : list Event) : nat :=
  match evs with
  | [] => 0
  | Chat _ :: rest => S (requests rest)
  | Wake :: rest => requests rest
  end.

(** ** Reasoning rules *)

Lemma post_bind {A B} (c : M A) (k : A -> M B) w (Q : Res B -> World -> Prop) :
  post c w (fun r w1 => match r with
                        | Val a => post (k a) w1 Q
                        | Panic msg => Q (Panic msg) w1
                        end) ->
  post (bind c k) w Q.
Proof. unfold post, bind. destruct (c w) as [[a|msg] w1]; auto. Qed.

Lemma post_mono {A} (c : M A) w (Q1 Q2 : Res A -> World -> Prop) :
  post c w Q1 -> (forall r w1, Q1 r w1 -> Q2 r w1) -> post c w Q2.
Proof. unfold post. auto. Qed.

Lemma same_sessions_refl w : same_sessions w w.
Proof. by split. Qed.

#[local] Hint Resolve same_sessions_refl : core.

Section Properties.

Variable E : Env.

(** *** The shared client *)

Lemma ensureClient_same k w :
  post (ensureClient E k) w (fun _ w1 => same_sessions w w1).
Proof.
  unfold post, ensureClient.
  destruct (client w) eqn:Hc, (clientErr w) eqn:He; cbn; rewrite ?Hc, ?He; cbn; auto.
  destruct (NewClient E (newClientCalls w) k); cbn; by split.
Qed.

(** *** The exchange *)

Lemma firstText_world resp w : snd (firstText resp w) = w.
Proof.
  unfold firstText, ret, panic.
  destruct (genai.Candidates resp) as [|c0 ?]; [done|].
  destruct (genai.Content_ c0) as [content|]; [|done].
  destruct (genai.Parts content) as [|[text|] ?]; done.
Qed.

Lemma exchange_world p msg w :
  post (exchange E p msg) w (fun _ w' => exchange_frame E p w w').
Proof.
  unfold post. unfold_prims. cbn.
  destruct (heap w !! p) as [cs|] eqn:Hp; cbn.
  - assert (p < length (heap w)) as Hlt by by eapply lookup_lt_Some.
    rewrite list_lookup_insert_eq by done. cbn.
    destruct (SendMessage E (sendCalls w) (Session cs) msg) as [session' r]. cbn.
    assert (exchange_frame E p w
      (tick_send (set_heap
         (<[p:={| Session := session'; LastUsed := Now E (clockReads w) |}]>
            (<[p:={| Session := Session cs; LastUsed := Now E (clockReads w) |}]> (heap w)))
         (set_heap
            (<[p:={| Session := Session cs; LastUsed := Now E (clockReads w) |}]> (heap w))
            (tick_clock w))))) as Hf.
    { split; cbn; try done.
      - by rewrite !length_insert.
      - intros q Hq. by rewrite !list_lookup_insert_ne.
      - intros cs'. rewrite list_lookup_insert_eq by by rewrite length_insert.
        by intros [= <-]. }
    destruct r as [resp|err]; cbn.
    + by rewrite firstText_world.
    + destruct Hf. by split.
  - split; cbn; try done. intros cs'. by rewrite Hp.
Qed.

(** *** The store lookup *)

Lemma getOrCreate_spec ip w :
  post (getOrCreate E ip) w (fun r w1 =>
    let p0 := length (heap w) in
    heap w1 = heap w ++ [{| Session := genai.StartChat model;
                            LastUsed := Now E (clockReads w) |}] /\
    clockReads w1 = S (clockReads w) /\
    (client w1 = client w /\ clientErr w1 = clientErr w /\
     newClientCalls w1 = newClientCalls w /\ sendCalls w1 = sendCalls w) /\
    match chatSessions w !! ip with
    | Some actual => r = Val (actual, true) /\ chatSessions w1 = chatSessions w
    | None => r = Val (ptrChatSession p0, false) /\
              chatSessions w1 = <[ip := ptrChatSession p0]> (chatSessions w)
    end).
Proof.
  unfold post. unfold_prims. cbn.
  destruct (chatSessions w !! ip) as [actual|] eqn:Hl; cbn; by rewrite ?Hl.
Qed.

(** *** One call of [generateGeminiResponse] *)

Lemma session_step_same ip w w1 w' :
  same_sessions w w1 -> session_step E ip w1 w' -> session_step E ip w w'.
Proof. intros [Hs Hh Hc _] [H1 H2 H3 H4 H5]. rewrite Hs, Hh, Hc in *. by split. Qed.

Lemma session_step_idle ip w w' :
  same_sessions w w' -> session_step E ip w w'.
Proof.
  intros [Hs Hh Hc _]. split; rewrite ?Hs, ?Hh, ?Hc; try lia.
  - by left.
  - intros q cs Hq. exists cs. split; [done|by left].
  - intros cs' Hq. apply lookup_lt_Some in Hq. lia.
Qed.

Lemma session_step_unused ip w w' cand :
  chatSessions w' = chatSessions w ->
  heap w' = heap w ++ [cand] ->
  LastUsed cand = Now E (clockReads w) ->
  S (clockReads w) <= clockReads w' ->
  session_step E ip w w'.
Proof.
  intros Hs Hh Hc Hn. split.
  - by left.
  - rewrite Hh, length_app. cbn. lia.
  - intros q cs Hq. exists cs. split; [|by left].
    rewrite Hh. by apply lookup_app_l_Some.
  - intros cs'. rewrite Hh, lookup_app_r by lia.
    rewrite Nat.sub_diag. cbn. intros [= <-]. split; [done|by left].
  - lia.
Qed.

Lemma session_step_used ip w w2 w' p cand :
  LastUsed cand = Now E (clockReads w) ->
  heap w2 = heap w ++ [cand] ->
  clockReads w2 = S (clockReads w) ->
  (chatSessions w !! ip = Some (ptrChatSession p) /\ chatSessions w2 = chatSessions w) \/
  (chatSessions w !! ip = None /\ p = length (heap w) /\
   chatSessions w2 = <[ip := ptrChatSession p]> (chatSessions w)) ->
  exchange_frame E p w2 w' ->
  session_step E ip w w'.
Proof.
  intros Hc Hh2 Hn2 Hs [Xs Xc Xl Xo Xt _].
  rewrite Hn2 in *. rewrite Hh2 in *. rewrite length_app in Xl. cbn in Xl.
  split.
  - rewrite Xs. destruct Hs as [[_ ->]|(Hnone & -> & ->)]; [by left|right].
    repeat split; [done|lia].
  - lia.
  - intros q cs Hq. pose proof (lookup_lt_Some _ _ _ Hq) as Hlt.
    destruct (decide (q = p)) as [->|Hqp].
    + destruct (lookup_lt_is_Some_2 (heap w') p) as [cs' Hcs']; [lia|].
      exists cs'. split; [done|]. right.
      destruct Hs as [[Hp _]|(_ & -> & _)]; [eauto|lia].
    + exists cs. split; [|by left].
      rewrite Xo by done. by apply lookup_app_l_Some.
  - intros cs' Hq. split; [lia|].
    destruct (decide (length (heap w) = p)) as [Hp|Hp].
    + right. rewrite Hp in Hq. eauto.
    + left. rewrite Xo in Hq by done.
      rewrite lookup_app_r, Nat.sub_diag in Hq by lia. cbn in Hq. by simplify_eq.
  - lia.
Qed.

Lemma generateGeminiResponse_step ip msg w :
  post (generateGeminiResponse E ip msg) w (fun _ w' => session_step E ip w w').
Proof.
  unfold generateGeminiResponse.
  destruct (LookupEnv E "GEMINI_API_KEY") as [apiKey|];
    [|by apply session_step_idle].
  apply post_bind. eapply post_mono; [apply ensureClient_same|].
  intros [[c|err]|msg'] w1 Hsame; cbn; try by apply session_step_idle.
  eapply post_mono; [|intros r w'; apply (session_step_same _ _ _ _ Hsame)].
  apply post_bind. eapply post_mono; [apply getOrCreate_spec|].
  intros r w2 (Hh & Hn & _ & Hcase).
  destruct (chatSessions w1 !! ip) as [[p|v]|] eqn:Hl; destruct Hcase as [-> Hs].
  - apply post_bind. unfold post at 1. cbn.
    eapply post_mono; [apply exchange_world|]. intros ? w' Hx.
    eapply session_step_used; eauto; done.
  - apply post_bind. unfold post at 1. cbn.
    eapply session_step_unused; eauto; first [done|lia].
  - apply post_bind. unfold post at 1. cbn.
    eapply post_mono; [apply exchange_world|]. intros ? w' Hx.
    eapply session_step_used; eauto; done.
Qed.

Lemma handleChat_step c w :
  post (handleChat E c) w (fun _ w' => session_step E (IP c) w w').
Proof.
  unfold handleChat. destruct (BodyParser c) as [req|err].
  - apply post_bind. eapply post_mono; [apply generateGeminiResponse_step|].
    intros [[s [e|]]|msg] w' Hstep; cbn; try done.
    unfold post. unfold_prims. cbn. destruct Hstep. by split.
  - unfold post. unfold_prims. cbn. by apply session_step_idle.
Qed.

(** *** The sweep *)

Lemma foldl_evict_subseteq h now entries (s : gmap string any) :
  foldl (evict h now) s entries ⊆ s.
Proof.
  revert s. induction entries as [|[k v] entries IH]; intros s; cbn; [done|].
  etrans; [apply IH|]. unfold evict. cbn.
  destruct (expired h now v); [apply delete_subseteq|done].
Qed.

Lemma foldl_evict_gone h now entries (s : gmap string any) key v :
  (key, v) ∈ entries -> expired h now v = true ->
  foldl (evict h now) s entries !! key = None.
Proof.
  revert s. induction entries as [|[k' v'] entries IH]; intros s Hin Hexp.
  - by apply elem_of_nil in Hin.
  - cbn. apply elem_of_cons in Hin as [[= <- <-]|Hin]; [|by apply IH].
    eapply lookup_weaken_None; [|apply foldl_evict_subseteq].
    unfold evict. cbn. rewrite Hexp. apply lookup_delete_eq.
Qed.

Lemma foldl_evict_kept h now entries (s : gmap string any) key :
  (forall v, (key, v) ∈ entries -> expired h now v = false) ->
  foldl (evict h now) s entries !! key = s !! key.
Proof.
  revert s. induction entries as [|[k' v'] entries IH]; intros s Hall; [done|].
  cbn. rewrite IH by (intros v Hv; apply Hall; by right).
  unfold evict. cbn. destruct (expired h now v') eqn:Hexp; [|done].
  apply lookup_delete_ne. intros ->. rewrite Hall in Hexp; [done|by left].
Qed.

Lemma sweepEntry_spec now key value w :
  post (sweepEntry now key value) w (fun r w' =>
    heap w' = heap w /\ clockReads w' = clockReads w /\
    (client w' = client w /\ clientErr w' = clientErr w /\
     newClientCalls w' = newClientCalls w) /\
    chatSessions w' = evict (heap w) now (chatSessions w) (key, value) /\
    ((forall p, value = ptrChatSession p -> is_Some (heap w !! p)) -> r = Val true)).
Proof.
  unfold post, sweepEntry, evict, expired. unfold_prims.
  destruct value as [p|v]; cbn; [|by repeat split].
  destruct (heap w !! p) as [cs|] eqn:Hp; cbn.
  - destruct (time.Sub now (LastUsed cs) >? 30 * time.Minute)%Z; cbn; by repeat split.
  - repeat split. intros H. destruct (H p eq_refl) as [cs Hcs]. congruence.
Qed.

Lemma Range_loop_sweep now entries w :
  post (Range_loop (sweepEntry now) entries) w (fun r w' =>
    sweep_frame w w' /\ clockReads w' = clockReads w /\
    (entries_allocated (heap w) entries ->
     r = Val tt /\
     chatSessions w' = foldl (evict (heap w) now) (chatSessions w) entries)).
Proof.
  revert w. induction entries as [|[key value] entries IH]; intros w.
  - unfold post; cbn. by repeat split.
  - cbn [Range_loop]. apply post_bind.
    eapply post_mono; [apply sweepEntry_spec|].
    intros r w1 (Hh & Hc & Hcl & Hs & Hr).
    assert (chatSessions w1 ⊆ chatSessions w) as Hsub.
    { rewrite Hs. unfold evict. destruct (expired _ _ _); [apply delete_subseteq|done]. }
    assert (entries_allocated (heap w) ((key, value) :: entries) -> r = Val true) as Hr'.
    { intros Hall. apply Hr. intros p ->. apply (Hall key). by left. }
    destruct r as [[|]|msg].
    + eapply post_mono; [apply IH|].
      intros r w' ([Fh Fs Fc] & Hc' & Hrest). rewrite Hh, Hc in *.
      split; [split|split]; try done.
      * by etrans.
      * destruct Fc as (F1 & F2 & F3), Hcl as (G1 & G2 & G3).
        rewrite F1, F2, F3. done.
      * intros Hall. destruct Hrest as [-> ->].
        { intros k p Hin. apply (Hall k). by right. }
        by rewrite Hs.
    + unfold post; cbn. split; [by split|split; [done|]].
      intros Hall. by specialize (Hr' Hall).
    + cbn. split; [by split|split; [done|]].
      intros Hall. by specialize (Hr' Hall).
Qed.

Lemma sweep_post w :
  post (sweep E) w (fun r w' =>
    sweep_frame w w' /\ clockReads w' = S (clockReads w) /\
    (entries_allocated (heap w) (map_to_list (chatSessions w)) ->
     r = Val tt /\
     chatSessions w' =
       foldl (evict (heap w) (Now E (clockReads w))) (chatSessions w)
             (map_to_list (chatSessions w)))).
Proof.
  pose proof (Range_loop_sweep (Now E (clockReads w))
                (map_to_list (chatSessions w)) (tick_clock w)) as H.
  unfold post, sweep, bind, time_Now, Range in *. cbn in *.
  destruct H as ([Fh Fs Fc] & Hc & Hrest). split; [by split|by split].
Qed.

(** After a sweep an entry is in the store exactly when it was there
    before and had not expired. *)
Lemma sweep_lookup w key :
  entries_allocated (heap w) (map_to_list (chatSessions w)) ->
  chatSessions (snd (sweep E w)) !! key =
    match chatSessions w !! key with
    | Some v => if expired (heap w) (Now E (clockReads w)) v then None else Some v
    | None => None
    end.
Proof.
  intros Hall. destruct (sweep_post w) as (_ & _ & Hrest).
  destruct (Hrest Hall) as [_ ->].
  destruct (chatSessions w !! key) as [v|] eqn:Hl.
  - destruct (expired _ _ v) eqn:Hexp.
    + eapply foldl_evict_gone; [|done]. by apply elem_of_map_to_list.
    + rewrite foldl_evict_kept; [done|].
      intros v' Hin. apply elem_of_map_to_list in Hin. congruence.
  - eapply lookup_weaken_None; [done|apply foldl_evict_subseteq].
Qed.

(** *** Invariants of the store *)

Lemma run_cons w ev evs : run E w (ev :: evs) = run E (step E w ev) evs.
Proof. done. Qed.

Lemma wf_init : wf init.
Proof.
  split.
  - intros key v H. cbn in H. by rewrite lookup_empty in H.
  - intros k1 k2 p H. cbn in H. by rewrite lookup_empty in H.
Qed.

Lemma session_step_wf ip w w' : wf w -> session_step E ip w w' -> wf w'.
Proof.
  intros [Hv Hd] [Hs Hl _ _ _]. unfold wf, sessions_valid, sessions_distinct.
  destruct Hs as [Hs|(Hnone & Hs & Hlen)]; rewrite Hs.
  - split; [|done]. intros key v Hk. destruct (Hv key v Hk) as (p & -> & Hp).
    exists p. split; [done|lia].
  - split.
    + intros key v. rewrite lookup_insert. case_decide as Hk.
      * intros [= <-]. eexists. split; [done|lia].
      * intros Hl'. destruct (Hv key v Hl') as (p & -> & Hp). exists p. split; [done|lia].
    + intros k1 k2 p. rewrite !lookup_insert.
      repeat case_decide; subst; try done.
      * intros [= <-] H2. destruct (Hv _ _ H2) as (p & [= <-] & Hp). lia.
      * intros H1 [= <-]. destruct (Hv _ _ H1) as (p & [= <-] & Hp). lia.
      * apply Hd.
Qed.

Lemma sweep_frame_wf w w' : wf w -> sweep_frame w w' -> wf w'.
Proof.
  intros [Hv Hd] [Hh Hs _]. split.
  - intros key v Hk. rewrite Hh. apply (Hv key). by eapply lookup_weaken.
  - intros k1 k2 p H1 H2. apply (Hd k1 k2 p); by eapply lookup_weaken.
Qed.

Lemma step_wf w ev : wf w -> wf (step E w ev).
Proof.
  intros Hw. destruct ev as [c|]; unfold step.
  - eapply session_step_wf; [done|]. apply (handleChat_step c w).
  - eapply sweep_frame_wf; [done|]. apply (sweep_post w).
Qed.

Lemma run_wf evs w : wf w -> wf (run E w evs).
Proof.
  revert w. induction evs as [|ev evs IH]; intros w Hw; [done|].
  cbn. apply IH. by apply step_wf.
Qed.

Lemma reachable_wf w : reachable E w -> wf w.
Proof. intros [evs ->]. apply run_wf, wf_init. Qed.

Lemma wf_allocated w :
  wf w -> entries_allocated (heap w) (map_to_list (chatSessions w)).
Proof.
  intros [Hv _] key p Hin. apply elem_of_map_to_list in Hin.
  destruct (Hv _ _ Hin) as (q & [= <-] & Hq). by apply lookup_lt_is_Some.
Qed.

Lemma reachable_step w ev : reachable E w -> reachable E (step E w ev).
Proof.
  intros [evs ->]. exists (evs ++ [ev]). unfold run. by rewrite fold_left_app.
Qed.

Lemma reachable_run w evs : reachable E w -> reachable E (run E w evs).
Proof.
  intros [evs0 ->]. exists (evs0 ++ evs). unfold run. by rewrite fold_left_app.
Qed.

(** *** Time stamps *)







(** From a well-formed world the loop of [cleanupSessions] goes on: [n]
    turns of it are [n] sweeps, none of which panics. *)
Lemma cleanupSessions_run n w :
  wf w -> cleanupSessions E n w = (Val tt, run E w (replicate n Wake)).
Proof.
  revert w. induction n as [|n IH]; intros w Hw; [done|].
  cbn [cleanupSessions replicate]. rewrite run_cons. unfold bind, step.
  pose proof (sweep_post w) as (Hf & _ & Hr).
  destruct (Hr (wf_allocated w Hw)) as [Hval _].
  destruct (sweep E w) as [r w1]. cbn in *. subst r.
  apply IH. by eapply sweep_frame_wf.
Qed.

End Properties.

(** ** The claims *)

(** *** C1: the store lookup *)

Lemma getOrCreate_again E ip w v :
  chatSessions w !! ip = Some v ->
  getOrCreate E ip w =
    (Val (v, true),
     set_heap (heap w ++ [{| Session := genai.StartChat model;
                             LastUsed := Now E (clockReads w) |}])
              (tick_clock w)).
Proof. intros Hl. unfold_prims. cbn. by rewrite Hl. Qed.

Lemma lookups_present E ip n w v :
  chatSessions w !! ip = Some v ->
  fst (lookups E ip n w) = replicate n (Val (v, true)) /\
  chatSessions (snd (lookups E ip n w)) = chatSessions w /\
  length (heap (snd (lookups E ip n w))) = n + length (heap w).
Proof.
  revert w. induction n as [|n IH]; intros w Hl; [done|].
  cbn [lookups]. rewrite (getOrCreate_again _ _ _ _ Hl).
  match goal with |- context [lookups E ip n ?w1] =>
    destruct (IH w1) as (IH1 & IH2 & IH3); [done|];
    destruct (lookups E ip n w1) as [rs w'] end.
  cbn in *. rewrite IH1, IH2, IH3, length_app. cbn. repeat split. lia.
Qed.

(** C1, as the code has it: in a run of store lookups for one identifier
    every caller gets the same entity, which is the one already stored if
    there was one and a new one, now stored, if not; the store is not
    touched after the first lookup.  Every lookup constructs an entity of
    its own all the same: [S n] lookups construct [S n] of them, and all
    but at most the first are dropped. *)
Theorem C1_getOrCreate_same_entity E ip n w :
  let rs := fst (lookups E ip (S n) w) in
  let w' := snd (lookups E ip (S n) w) in
  let fresh := ptrChatSession (length (heap w)) in
  let v := default fresh (chatSessions w !! ip) in
  rs = Val (v, bool_decide (is_Some (chatSessions w !! ip)))
         :: replicate n (Val (v, true)) /\
  chatSessions w' !! ip = Some v /\
  chatSessions w' =
    match chatSessions w !! ip with
    | Some _ => chatSessions w
    | None => <[ip := fresh]> (chatSessions w)
    end /\
  constructed w w' = S n.
Proof.
  cbn zeta. unfold constructed. cbn [lookups].
  destruct (chatSessions w !! ip) as [v|] eqn:Hl; cbn [default].
  - destruct (lookups_present E ip (S n) w v Hl) as (H1 & H2 & H3).
    cbn [lookups] in *.
    destruct (getOrCreate E ip w) as [r w1].
    destruct (lookups E ip n w1) as [rs w']. cbn in *.
    rewrite H1, H2, H3, Hl. repeat split. lia.
  - assert (getOrCreate E ip w =
      (Val (ptrChatSession (length (heap w)), false),
       set_chatSessions (<[ip := ptrChatSession (length (heap w))]> (chatSessions w))
         (set_heap (heap w ++ [{| Session := genai.StartChat model;
                                  LastUsed := Now E (clockReads w) |}])
            (tick_clock w)))) as ->.
    { unfold_prims. cbn. by rewrite Hl. }
    match goal with |- context [lookups E ip n ?w1] =>
      destruct (lookups_present E ip n w1 (ptrChatSession (length (heap w))))
        as (H1 & H2 & H3); [cbn; apply lookup_insert_eq|];
      destruct (lookups E ip n w1) as [rs w'] end.
    cbn in *. rewrite H1, H2, H3, length_app. cbn.
    rewrite lookup_insert_eq. repeat split. lia.
Qed.

(** C1 as stated fails: two lookups for one identifier from the initial
    world construct two entities, not one. *)
Lemma C1_two_lookups_construct_two :
  let w' := snd (lookups demoEnv "10.0.0.5" 2 init) in
  constructed init w' = 2 /\
  constructed init w' <> 1 /\
  fst (lookups demoEnv "10.0.0.5" 2 init) =
    [Val (ptrChatSession 0, false); Val (ptrChatSession 0, true)] /\
  constructed init (run demoEnv init [Chat (fromAlice "Is my alarm armed?");
                                      Chat (fromAlice "And the garage?")]) = 2.
Proof. vm_compute. repeat split. discriminate. Qed.

(** *** C2: a failing provider call *)

Lemma exchange_fail E p msg w cs e :
  heap w !! p = Some cs ->
  snd (SendMessage E (sendCalls w) (Session cs) msg) = inr e ->
  fst (exchange E p msg w) = Val ("", Some (Errorf_w "Error sending message: " e)).
Proof.
  intros Hp Hsend. unfold_prims. cbn. rewrite Hp. cbn.
  rewrite list_lookup_insert_eq by by eapply lookup_lt_Some. cbn.
  destruct (SendMessage E (sendCalls w) (Session cs) msg) as [session' r].
  cbn in *. by subst r.
Qed.

Lemma exchange_fail_world E p msg w e :
  p < length (heap w) ->
  (forall session, snd (SendMessage E (sendCalls w) session msg) = inr e) ->
  fst (exchange E p msg w) = Val ("", Some (Errorf_w "Error sending message: " e)) /\
  chatSessions (snd (exchange E p msg w)) = chatSessions w /\
  exists cs', heap (snd (exchange E p msg w)) !! p = Some cs' /\
              LastUsed cs' = Now E (clockReads w).
Proof.
  intros Hp Hfail. destruct (lookup_lt_is_Some_2 _ _ Hp) as [cs Hcs].
  pose proof (exchange_world E p msg w) as [Xs Xc Xl Xo Xt _].
  split; [by eapply exchange_fail|]. split; [done|].
  destruct (lookup_lt_is_Some_2 (heap (snd (exchange E p msg w))) p) as [cs' Hcs'].
  { by rewrite Xl. }
  exists cs'. split; [done|]. by apply Xt.
Qed.

(** C2, as the code has it: when the provider call fails, the result is
    the error that wraps the provider's with the text
    [Error sending message: ...], the session is still in the store (the
    same store if the identifier had a session already), and its
    [LastUsed] has been set to the reading of the clock taken just before
    the call: the time stamp is refreshed by the failed exchange too. *)
Theorem C2_failed_exchange E w ip msg k c e :
  reachable E w ->
  LookupEnv E "GEMINI_API_KEY" = Some k ->
  fst (ensureClient E k w) = Val (inl c) ->
  (forall session, snd (SendMessage E (sendCalls w) session msg) = inr e) ->
  let r := fst (generateGeminiResponse E ip msg w) in
  let w' := snd (generateGeminiResponse E ip msg w) in
  r = Val ("", Some (Errorf_w "Error sending message: " e)) /\
  (exists p cs', chatSessions w' !! ip = Some (ptrChatSession p) /\
                 heap w' !! p = Some cs' /\
                 LastUsed cs' = Now E (S (clockReads w))) /\
  (is_Some (chatSessions w !! ip) -> chatSessions w' = chatSessions w).
Proof.
  intros Hreach Hkey Hclient Hfail. cbn zeta.
  apply reachable_wf in Hreach as [Hvalid _].
  match goal with |- ?G =>
    change (post (generateGeminiResponse E ip msg) w (fun r w' =>
      r = Val ("", Some (Errorf_w "Error sending message: " e)) /\
      (exists p cs', chatSessions w' !! ip = Some (ptrChatSession p) /\
                     heap w' !! p = Some cs' /\
                     LastUsed cs' = Now E (S (clockReads w))) /\
      (is_Some (chatSessions w !! ip) -> chatSessions w' = chatSessions w)))
  end.
  unfold generateGeminiResponse. rewrite Hkey.
  apply post_bind. unfold post at 1. rewrite Hclient.
  destruct (ensureClient_same E k w) as [Ss Sh Sc Sn].
  apply post_bind. eapply post_mono; [apply getOrCreate_spec|].
  intros r2 w2 (Hh & Hn & (_ & _ & _ & Hsends) & Hcase).
  rewrite Ss, Sh, Sc, Sn in *.
  assert (length (heap w2) = S (length (heap w))) as Hlen
    by (rewrite Hh, length_app; cbn; lia).
  rewrite <- Hsends in Hfail. rewrite <- Hn.
  destruct (chatSessions w !! ip) as [v|] eqn:Hl; destruct Hcase as [-> Hs2].
  - destruct (Hvalid _ _ Hl) as (p & -> & Hp).
    apply post_bind. unfold post. cbn [assert_ChatSession ret fst snd].
    destruct (exchange_fail_world E p msg w2 e) as (H1 & H2 & cs' & H3 & H4);
      [lia|done|].
    rewrite H2, Hs2. split; [done|]. split; [|done].
    exists p, cs'. by rewrite Hl.
  - apply post_bind. unfold post. cbn [assert_ChatSession ret fst snd].
    destruct (exchange_fail_world E (length (heap w)) msg w2 e)
      as (H1 & H2 & cs' & H3 & H4); [lia|done|].
    rewrite H2, Hs2. split; [done|]. split; [|by intros [? ?]].
    exists (length (heap w)), cs'. by rewrite lookup_insert_eq.
Qed.

(** C2 as stated fails: the second exchange of this run fails at the
    provider, and [LastUsed] of the session moves from the reading at
    twelve minutes to the reading at thirty-six. *)
Lemma C2_failed_exchange_moves_LastUsed :
  let w := run demoEnv init [Chat (fromAlice "Is my alarm armed?")] in
  let out := generateGeminiResponse demoEnv "10.0.0.5" "And the garage?" w in
  fst out = Val ("", Some (Errorf_w "Error sending message: "
                             (errorString "rate limit exceeded"))) /\
  chatSessions w !! "10.0.0.5" = Some (ptrChatSession 0) /\
  chatSessions (snd out) !! "10.0.0.5" = Some (ptrChatSession 0) /\
  LastUsed <$> heap w !! 0 = Some (12 * time.Minute)%Z /\
  LastUsed <$> heap (snd out) !! 0 = Some (36 * time.Minute)%Z.
Proof. vm_compute. repeat split. Qed.

(** *** C3: what the handler rejects *)



(** *** C4: the sweep *)

Lemma Sub_exceeds t u :
  (time.Sub t u >? 30 * time.Minute)%Z = (t - u >? 30 * time.Minute)%Z.
Proof.
  unfold time.Sub.
  change time.minDuration with (-9223372036854775808)%Z.
  change time.maxDuration with 9223372036854775807%Z.
  change (30 * time.Minute)%Z with 1800000000000%Z.
  destruct (Z.ltb_spec (t - u) (-9223372036854775808)) as [Hlo|Hlo].
  - symmetry. rewrite Z.gtb_ltb. apply Z.ltb_ge. lia.
  - destruct (Z.ltb_spec 9223372036854775807 (t - u)) as [Hhi|Hhi]; [|done].
    symmetry. rewrite Z.gtb_ltb. apply Z.ltb_lt. lia.
Qed.

(** C4: at a sweep, an entry whose session has been idle for more than
    thirty minutes is gone from the store when the sweep is over, and an
    entry whose session has been idle for thirty minutes or less (so also
    one below the threshold) is still there, with its session as it was. *)
Theorem C4_sweep_evicts_idle_sessions E w key v :
  reachable E w ->
  chatSessions w !! key = Some v ->
  exists p cs,
    v = ptrChatSession p /\ heap w !! p = Some cs /\
    let idle := (Now E (clockReads w) - LastUsed cs)%Z in
    let w' := snd (sweep E w) in
    ((idle > 30 * time.Minute)%Z -> chatSessions w' !! key = None) /\
    ((idle <= 30 * time.Minute)%Z ->
       chatSessions w' !! key = Some v /\ heap w' !! p = Some cs).
Proof.
  intros Hreach Hl. apply reachable_wf in Hreach as Hwf.
  destruct (proj1 Hwf _ _ Hl) as (p & -> & Hp).
  destruct (lookup_lt_is_Some_2 _ _ Hp) as [cs Hcs].
  exists p, cs. split; [done|]. split; [done|]. cbn zeta.
  rewrite (sweep_lookup E w key (wf_allocated w Hwf)), Hl.
  cbn [expired]. rewrite Hcs, Sub_exceeds.
  destruct (sweep_post E w) as ([Fh _ _] & _). rewrite Fh.
  split; intros Hidle.
  - by rewrite (proj2 (Z.gtb_gt _ _)) by lia.
  - destruct (Z.gtb_spec (Now E (clockReads w) - LastUsed cs) (30 * time.Minute)); [lia|done].
Qed.

(** *** C5: [LastUsed] over time *)



(** *** C6: a failed initialisation of the shared client *)






(** *** C7: isolation between identifiers *)

Lemma session_step_isolated E A B w w' :
  wf w -> A <> B -> session_step E A w w' ->
  chatSessions w' !! B = chatSessions w !! B /\
  forall p, chatSessions w !! B = Some (ptrChatSession p) ->
            heap w' !! p = heap w !! p.
Proof.
  intros [Hv Hd] Hne [Hs _ Hold _ _]. split.
  - destruct Hs as [->|(_ & -> & _)]; [done|]. by apply lookup_insert_ne.
  - intros p Hp. destruct (Hv _ _ Hp) as (q & [= <-] & Hlt).
    destruct (lookup_lt_is_Some_2 _ _ Hlt) as [cs Hcs].
    destruct (Hold _ _ Hcs) as (cs' & Hcs' & [->|(HA & _)]); [congruence|].
    destruct Hne. by apply (Hd A B p).
Qed.

(** C7: when a call for identifier [A] ends in an error (the client could
    not be made, the provider call failed, the reply had no text), the
    store has for every other identifier [B] what it had before, and the
    session entity of [B], its [LastUsed] and its conversation, is as it
    was. *)
Theorem C7_failure_for_A_leaves_B E w A B msg s err :
  reachable E w ->
  A <> B ->
  fst (generateGeminiResponse E A msg w) = Val (s, Some err) ->
  let w' := snd (generateGeminiResponse E A msg w) in
  chatSessions w' !! B = chatSessions w !! B /\
  forall p, chatSessions w !! B = Some (ptrChatSession p) ->
            heap w' !! p = heap w !! p.
Proof.
  intros Hreach Hne _. cbn zeta.
  apply (session_step_isolated E A B); [by apply (reachable_wf E)|done|].
  apply (generateGeminiResponse_step E A msg w).
Qed.

(** *** C8: deleting twice *)

(** C8: [Delete] always returns normally, also for an identifier that is
    not in the store, in which case the world is left as it is; and after
    one [Delete] a second one for the same identifier changes nothing. *)
Theorem C8_Delete_idempotent key w :
  fst (Delete key w) = Val tt /\
  snd (Delete key (snd (Delete key w))) = snd (Delete key w) /\
  (chatSessions w !! key = None -> snd (Delete key w) = w).
Proof.
  unfold Delete, set_chatSessions. cbn. split; [done|]. split.
  - by rewrite delete_delete_eq.
  - intros Hnone. rewrite delete_id by done. by destruct w.
Qed.

(** *** C9: what the store holds *)

(** C9: in every world the process can reach, each value in the store is a
    [*ChatSession] that points to an allocated entity, so none of the
    entries the sweep visits is of another type; and on a value of another
    type the sweep writes its log line and goes on with the remaining
    entries. *)
Theorem C9_store_holds_sessions_only E w :
  reachable E w ->
  (forall key v, chatSessions w !! key = Some v ->
     exists p cs, v = ptrChatSession p /\ heap w !! p = Some cs) /\
  (forall key v u, (key, v) ∈ map_to_list (chatSessions w) -> v <> otherValue u) /\
  (forall now key u rest w0,
     Range_loop (sweepEntry now) ((key, otherValue u) :: rest) w0 =
     Range_loop (sweepEntry now) rest
       (add_log ("Unexpected value type in chatSessions for key " +:+ key) w0)).
Proof.
  intros Hreach. apply reachable_wf in Hreach as [Hv _]. repeat split.
  - intros key v Hl. destruct (Hv _ _ Hl) as (p & -> & Hp).
    destruct (lookup_lt_is_Some_2 _ _ Hp) as [cs Hcs]. eauto.
  - intros key v u Hin ->. apply elem_of_map_to_list in Hin.
    by destruct (Hv _ _ Hin) as (p & ? & _).
Qed.

(** *** C10: the error text in the response *)

(** C10: whenever [generateGeminiResponse] returns an error, the handler
    answers 500 and the [error] field of the body is the text of that
    error; so a missing key is reported to the client as
    [GEMINI_API_KEY environment variable not set], and a failed provider
    call as [Error sending message: ] followed by the provider's text. *)
Theorem C10_error_text_reaches_client E c req w :
  BodyParser c = inl req ->
  (forall s err,
     fst (generateGeminiResponse E (IP c) (Message req) w) = Val (s, Some err) ->
     fst (handleChat E c w) =
       Val {| Status := StatusInternalServerError; JSON := [("error", Error err)] |}) /\
  (LookupEnv E "GEMINI_API_KEY" = None ->
     fst (handleChat E c w) =
       Val {| Status := StatusInternalServerError;
              JSON := [("error", "GEMINI_API_KEY environment variable not set")] |}) /\
  (forall s e,
     fst (generateGeminiResponse E (IP c) (Message req) w) =
       Val (s, Some (Errorf_w "Error sending message: " e)) ->
     fst (handleChat E c w) =
       Val {| Status := StatusInternalServerError;
              JSON := [("error", "Error sending message: " +:+ Error e)] |}).
Proof.
  intros Hbody.
  assert (forall s err,
     fst (generateGeminiResponse E (IP c) (Message req) w) = Val (s, Some err) ->
     fst (handleChat E c w) =
       Val {| Status := StatusInternalServerError; JSON := [("error", Error err)] |}) as H.
  { intros s err Hgen. unfold handleChat. rewrite Hbody. unfold bind.
    destruct (generateGeminiResponse E (IP c) (Message req) w) as [r w'].
    cbn in Hgen. by subst r. }
  repeat split; [done| |].
  - intros Hkey. apply (H "" (errorString "GEMINI_API_KEY environment variable not set")).
    unfold generateGeminiResponse. by rewrite Hkey.
  - intros s e Hgen. by apply (H s (Errorf_w "Error sending message: " e)).
Qed.

(** ** The theorems at work on the sample deployment *)

(** Alice's second request, which the provider refuses. *)
Lemma C2_failed_exchange_witness :
  fst (generateGeminiResponse demoEnv "10.0.0.5" "And the garage?" afterAlice) =
    Val ("", Some (Errorf_w "Error sending message: " (errorString "rate limit exceeded"))) /\
  (is_Some (chatSessions afterAlice !! "10.0.0.5") ->
   chatSessions (snd (generateGeminiResponse demoEnv "10.0.0.5" "And the garage?" afterAlice))
     = chatSessions afterAlice).
Proof.
  destruct (C2_failed_exchange demoEnv afterAlice "10.0.0.5" "And the garage?"
              "secret" {| genai.apiKey := "secret" |}
              (errorString "rate limit exceeded")) as (Hr & _ & Hs).
  - exists [Chat (fromAlice "Is my alarm armed?")]. reflexivity.
  - reflexivity.
  - vm_compute. reflexivity.
  - intros session. reflexivity.
  - split; [exact Hr|exact Hs].
Defined.

(** A sweep at forty-eight minutes: Alice, idle for thirty-six, goes;
    Bob, idle for twelve, stays. *)
Lemma C4_sweep_evicts_idle_sessions_witness :
  chatSessions (snd (sweep demoEnv afterAliceAndBob)) !! "10.0.0.5" = None /\
  chatSessions (snd (sweep demoEnv afterAliceAndBob)) !! "10.0.0.9" = Some (ptrChatSession 1).
Proof.
  split.
  - destruct (C4_sweep_evicts_idle_sessions demoEnv afterAliceAndBob
                "10.0.0.5" (ptrChatSession 0)) as (p & cs & Hv & Hcs & Hgone & _).
    + exists [Chat (fromAlice "Is my alarm armed?"); Chat (fromBob "Which camera is offline?")].
      reflexivity.
    + vm_compute. reflexivity.
    + injection Hv as <-. vm_compute in Hcs. injection Hcs as <-.
      apply Hgone. vm_compute. reflexivity.
  - destruct (C4_sweep_evicts_idle_sessions demoEnv afterAliceAndBob
                "10.0.0.9" (ptrChatSession 1)) as (p & cs & Hv & Hcs & _ & Hkept).
    + exists [Chat (fromAlice "Is my alarm armed?"); Chat (fromBob "Which camera is offline?")].
      reflexivity.
    + vm_compute. reflexivity.
    + injection Hv as <-. vm_compute in Hcs. injection Hcs as <-.
      apply Hkept. vm_compute. discriminate.
Defined.



(** Bob's failing request leaves Alice's session alone. *)
Lemma C7_failure_for_A_leaves_B_witness :
  let w' := snd (generateGeminiResponse demoEnv "10.0.0.9" "Which camera is offline?" afterAlice) in
  chatSessions w' !! "10.0.0.5" = chatSessions afterAlice !! "10.0.0.5" /\
  heap w' !! 0 = heap afterAlice !! 0.
Proof.
  destruct (C7_failure_for_A_leaves_B demoEnv afterAlice "10.0.0.9" "10.0.0.5"
              "Which camera is offline?" ""
              (Errorf_w "Error sending message: " (errorString "rate limit exceeded")))
    as (Hs & Hh).
  - exists [Chat (fromAlice "Is my alarm armed?")]. reflexivity.
  - discriminate.
  - vm_compute. reflexivity.
  - split; [exact Hs|]. apply Hh. vm_compute. reflexivity.
Defined.

(** Deleting an absent identifier, and deleting Alice twice. *)
Lemma C8_Delete_idempotent_witness :
  snd (Delete "10.0.0.5" init) = init /\
  snd (Delete "10.0.0.5" (snd (Delete "10.0.0.5" afterAlice))) = snd (Delete "10.0.0.5" afterAlice).
Proof.
  split.
  - apply (C8_Delete_idempotent "10.0.0.5" init). reflexivity.
  - apply (C8_Delete_idempotent "10.0.0.5" afterAlice).
Defined.

(** Bob's entry after the two requests. *)
Lemma C9_store_holds_sessions_only_witness :
  exists p cs,
    ptrChatSession 1 = ptrChatSession p /\ heap afterAliceAndBob !! p = Some cs.
Proof.
  destruct (C9_store_holds_sessions_only demoEnv afterAliceAndBob) as (Hv & _ & _).
  - exists [Chat (fromAlice "Is my alarm armed?"); Chat (fromBob "Which camera is offline?")].
    reflexivity.
  - apply (Hv "10.0.0.9"). vm_compute. reflexivity.
Defined.

(** The three error texts as the client reads them. *)
Lemma C10_error_text_reaches_client_witness :
  fst (handleChat brokenEnv (fromAlice "Is my alarm armed?") init) =
    Val {| Status := StatusInternalServerError;
           JSON := [("error", "Error creating AI client: dial tcp: connection refused")] |} /\
  fst (handleChat keylessEnv (fromAlice "Is my alarm armed?") init) =
    Val {| Status := StatusInternalServerError;
           JSON := [("error", "GEMINI_API_KEY environment variable not set")] |} /\
  fst (handleChat demoEnv (fromAlice "And the garage?") afterAlice) =
    Val {| Status := StatusInternalServerError;
           JSON := [("error", "Error sending message: rate limit exceeded")] |}.
Proof.
  split; [|split].
  - apply (proj1 (C10_error_text_reaches_client brokenEnv (fromAlice "Is my alarm armed?")
                    {| Message := "Is my alarm armed?" |} init eq_refl) ""
                 (Errorf_w "Error creating AI client: "
                    (errorString "dial tcp: connection refused"))).
    reflexivity.
  - apply (proj1 (proj2 (C10_error_text_reaches_client keylessEnv
                    (fromAlice "Is my alarm armed?")
                    {| Message := "Is my alarm armed?" |} init eq_refl))).
    reflexivity.
  - apply (proj2 (proj2 (C10_error_text_reaches_client demoEnv
                    (fromAlice "And the garage?")
                    {| Message := "And the garage?" |} afterAlice eq_refl)) ""
                 (errorString "rate limit exceeded")).
    vm_compute. reflexivity.
Defined.

(** ** Further properties of the session cache *)

Section MoreProperties.

Variable E : Env.

(** *** Where sessions come from *)

Lemma handleChat_unparsed c w err :
  BodyParser c = inr err ->
  snd (handleChat E c w) =
    add_log ("Error parsing request body from " +:+ IP c +:+ ": " +:+ Error err) w.
Proof. intros Hb. unfold handleChat. rewrite Hb. done. Qed.

Lemma step_keys w ev key :
  is_Some (chatSessions (step E w ev) !! key) ->
  is_Some (chatSessions w !! key) \/
  exists c req, ev = Chat c /\ IP c = key /\ BodyParser c = inl req.
Proof.
  destruct ev as [c|]; unfold step.
  - destruct (BodyParser c) as [req|err] eqn:Hb.
    + destruct (handleChat_step E c w) as [[->|(_ & -> & _)] _ _ _ _]; [by left|].
      destruct (decide (IP c = key)) as [<-|Hne]; [right; eauto|].
      rewrite lookup_insert_ne by done. by left.
    + rewrite (handleChat_unparsed c w err Hb). by left.
  - destruct (sweep_post E w) as ([_ Hsub _] & _).
    intros [v Hv]. left. exists v. by eapply lookup_weaken.
Qed.

Lemma run_keys evs w key :
  is_Some (chatSessions (run E w evs) !! key) ->
  is_Some (chatSessions w !! key) \/
  exists c req, Chat c ∈ evs /\ IP c = key /\ BodyParser c = inl req.
Proof.
  revert w. induction evs as [|ev evs IH]; intros w Hk; [by left|].
  rewrite run_cons in Hk. destruct (IH _ Hk) as [Hs|(c & req & Hin & Hc)].
  - destruct (step_keys w ev key Hs) as [?|(c & req & -> & Hc)]; [by left|].
    right. exists c, req. split; [by left|done].
  - right. exists c, req. split; [by right|done].
Qed.

(** *** The shared client over a run *)









(** *** A process without the key *)

Lemma step_untouched w ev :
  LookupEnv E "GEMINI_API_KEY" = None -> untouched w -> untouched (step E w ev).
Proof.
  intros Hkey (Hs & Hh & Hn & Hsend). destruct ev as [c|]; unfold step.
  - unfold handleChat, generateGeminiResponse. rewrite Hkey.
    destruct (BodyParser c); done.
  - unfold sweep, bind, time_Now, Range. cbn. rewrite Hs, map_to_list_empty. done.
Qed.

(** *** The exchange, exactly *)

Lemma firstText_fst resp w : fst (firstText resp w) = fst (firstText resp init).
Proof.
  unfold firstText, ret, panic.
  destruct (genai.Candidates resp) as [|c0 ?]; [done|].
  destruct (genai.Content_ c0) as [content|]; [|done].
  destruct (genai.Parts content) as [|[text|] ?]; done.
Qed.

Lemma exchange_exact p msg w cs :
  heap w !! p = Some cs ->
  fst (exchange E p msg w) = reply_of (snd (SendMessage E (sendCalls w) (Session cs) msg)) /\
  heap (snd (exchange E p msg w)) =
    <[p := exchanged E (sendCalls w) (Session cs) msg (Now E (clockReads w))]> (heap w) /\
  sendCalls (snd (exchange E p msg w)) = S (sendCalls w).
Proof.
  intros Hp. unfold exchanged, reply_of. unfold_prims. cbn. rewrite Hp. cbn.
  rewrite list_lookup_insert_eq by by eapply lookup_lt_Some. cbn.
  destruct (SendMessage E (sendCalls w) (Session cs) msg) as [session' [resp|err]]; cbn.
  - rewrite firstText_world, firstText_fst. cbn. by rewrite list_insert_insert_eq.
  - by rewrite list_insert_insert_eq.
Qed.

(** The call for an identifier that has a session. *)
Lemma generateGeminiResponse_present ip msg w k cl p cs :
  LookupEnv E "GEMINI_API_KEY" = Some k ->
  fst (ensureClient E k w) = Val (inl cl) ->
  chatSessions w !! ip = Some (ptrChatSession p) ->
  heap w !! p = Some cs ->
  post (generateGeminiResponse E ip msg) w (fun r w' =>
    r = reply_of (snd (SendMessage E (sendCalls w) (Session cs) msg)) /\
    chatSessions w' = chatSessions w /\
    heap w' = <[p := exchanged E (sendCalls w) (Session cs) msg (Now E (S (clockReads w)))]>
                (heap w ++ [{| Session := genai.StartChat model;
                               LastUsed := Now E (clockReads w) |}]) /\
    clockReads w' = S (S (clockReads w))).
Proof.
  intros Hkey Hclient Hl Hp.
  unfold generateGeminiResponse. rewrite Hkey.
  apply post_bind. unfold post at 1. rewrite Hclient.
  destruct (ensureClient_same E k w) as [Ss Sh Sc Sn].
  apply post_bind. eapply post_mono; [apply getOrCreate_spec|].
  intros r2 w2 (Hh & Hn & (_ & _ & _ & Hsends) & Hcase).
  rewrite Ss, Sh, Sc, Sn, Hl in *. destruct Hcase as [-> Hs2].
  apply post_bind. unfold post. cbn [assert_ChatSession ret fst snd].
  assert (heap w2 !! p = Some cs) as Hp2.
  { rewrite Hh. by apply lookup_app_l_Some. }
  destruct (exchange_exact p msg w2 cs Hp2) as (Hr & Hheap & _).
  destruct (exchange_world E p msg w2) as [Xs Xc _ _ _ _].
  rewrite Hr, Hheap, Xs, Xc, Hsends, Hn, Hh, Hs2. done.
Qed.

(** The call for an identifier that has none. *)
Lemma generateGeminiResponse_absent ip msg w k cl :
  LookupEnv E "GEMINI_API_KEY" = Some k ->
  fst (ensureClient E k w) = Val (inl cl) ->
  chatSessions w !! ip = None ->
  post (generateGeminiResponse E ip msg) w (fun r w' =>
    r = reply_of (snd (SendMessage E (sendCalls w) (genai.StartChat model) msg)) /\
    chatSessions w' = <[ip := ptrChatSession (length (heap w))]> (chatSessions w) /\
    heap w' = heap w ++ [exchanged E (sendCalls w) (genai.StartChat model) msg
                           (Now E (S (clockReads w)))] /\
    clockReads w' = S (S (clockReads w))).
Proof.
  intros Hkey Hclient Hl.
  unfold generateGeminiResponse. rewrite Hkey.
  apply post_bind. unfold post at 1. rewrite Hclient.
  destruct (ensureClient_same E k w) as [Ss Sh Sc Sn].
  apply post_bind. eapply post_mono; [apply getOrCreate_spec|].
  intros r2 w2 (Hh & Hn & (_ & _ & _ & Hsends) & Hcase).
  rewrite Ss, Sh, Sc, Sn, Hl in *. destruct Hcase as [-> Hs2].
  apply post_bind. unfold post. cbn [assert_ChatSession ret fst snd].
  set (cand := {| Session := genai.StartChat model; LastUsed := Now E (clockReads w) |}) in *.
  assert (heap w2 !! length (heap w) = Some cand) as Hp2.
  { rewrite Hh, lookup_app_r, Nat.sub_diag by lia. done. }
  destruct (exchange_exact (length (heap w)) msg w2 cand Hp2) as (Hr & Hheap & _).
  destruct (exchange_world E (length (heap w)) msg w2) as [Xs Xc _ _ _ _].
  rewrite Hr, Hheap, Xs, Xc, Hsends, Hn, Hh, Hs2.
  rewrite insert_app_r_alt, Nat.sub_diag by lia. done.
Qed.

(** *** What a sweep logs *)

Lemma sweepEntry_ptr now key p w cs :
  heap w !! p = Some cs ->
  sweepEntry now key (ptrChatSession p) w =
    (Val true,
     if expired (heap w) now (ptrChatSession p)
     then add_log (deleted_line key) (set_chatSessions (delete key (chatSessions w)) w)
     else w).
Proof.
  intros Hp. unfold sweepEntry, expired, deleted_line. unfold_prims. rewrite Hp. cbn.
  by destruct (time.Sub now (LastUsed cs) >? 30 * time.Minute)%Z.
Qed.

Lemma Range_loop_logs now entries w :
  (forall k v, (k, v) ∈ entries -> exists p, v = ptrChatSession p /\ is_Some (heap w !! p)) ->
  logs (snd (Range_loop (sweepEntry now) entries w)) =
    logs w ++ (deleted_line <$>
                 (filter (fun kv => Is_true (expired (heap w) now (snd kv))) entries).*1).
Proof.
  revert w. induction entries as [|[k v] entries IH]; intros w Hall.
  - cbn. by rewrite app_nil_r.
  - destruct (Hall k v) as (p & -> & [cs Hcs]); [by left|].
    cbn [Range_loop]. unfold bind. rewrite (sweepEntry_ptr now k p w cs Hcs).
    rewrite filter_cons. cbn [snd].
    destruct (expired (heap w) now (ptrChatSession p)) eqn:Hexp.
    + destruct (decide _) as [_|Hn]; [|by destruct Hn]. rewrite IH.
      * cbn. by rewrite <- app_assoc.
      * intros k' v' Hin. apply (Hall k' v'). by right.
    + destruct (decide _) as [Hy|_]; [done|]. rewrite IH; [done|].
      intros k' v' Hin. apply (Hall k' v'). by right.
Qed.

Lemma sweep_logs w :
  wf w ->
  logs (snd (sweep E w)) =
    logs w ++ (deleted_line <$>
                 (filter (fun kv => Is_true (expired (heap w) (Now E (clockReads w)) (snd kv)))
                         (map_to_list (chatSessions w))).*1).
Proof.
  intros [Hv _]. unfold sweep, bind, time_Now, Range. cbn.
  rewrite (Range_loop_logs _ _ (tick_clock w)); [done|].
  intros k v Hin. apply elem_of_map_to_list in Hin.
  destruct (Hv _ _ Hin) as (p & -> & Hp). exists p. split; [done|].
  by apply lookup_lt_is_Some.
Qed.

Lemma filter_fst_NoDup {A B} (P : A * B -> Prop) `{!forall x, Decision (P x)}
    (l : list (A * B)) :
  NoDup l.*1 -> NoDup (filter P l).*1.
Proof.
  intros Hnd. eapply sublist_NoDup; [done|].
  apply fmap_sublist, sublist_filter.
Qed.

(** *** The result of a call that reaches the provider *)

Lemma generateGeminiResponse_result ip msg w k cl r :
  wf w ->
  LookupEnv E "GEMINI_API_KEY" = Some k ->
  fst (ensureClient E k w) = Val (inl cl) ->
  (forall session, snd (SendMessage E (sendCalls w) session msg) = r) ->
  fst (generateGeminiResponse E ip msg w) = reply_of r /\
  exists p cs',
    chatSessions (snd (generateGeminiResponse E ip msg w)) !! ip = Some (ptrChatSession p) /\
    heap (snd (generateGeminiResponse E ip msg w)) !! p = Some cs' /\
    LastUsed cs' = Now E (S (clockReads w)).
Proof.
  intros [Hv _] Hkey Hclient Hsend.
  destruct (chatSessions w !! ip) as [v|] eqn:Hl.
  - destruct (Hv _ _ Hl) as (p & -> & Hp).
    destruct (lookup_lt_is_Some_2 _ _ Hp) as [cs Hcs].
    destruct (generateGeminiResponse_present ip msg w k cl p cs Hkey Hclient Hl Hcs)
      as (Hr & Hs & Hh & _).
    rewrite Hsend in Hr. split; [done|].
    exists p. eexists. rewrite Hs, Hh. split; [done|].
    split; [apply list_lookup_insert_eq; rewrite length_app; lia|done].
  - destruct (generateGeminiResponse_absent ip msg w k cl Hkey Hclient Hl)
      as (Hr & Hs & Hh & _).
    rewrite Hsend in Hr. split; [done|].
    exists (length (heap w)). eexists. rewrite Hs, Hh, lookup_insert_eq.
    split; [done|].
    split; [rewrite lookup_app_r, Nat.sub_diag by lia; done|done].
Qed.

Lemma handleChat_parsed c req w :
  BodyParser c = inl req ->
  let out := generateGeminiResponse E (IP c) (Message req) w in
  fst (handleChat E c w) =
    match fst out with
    | Val (s, Some err) =>
        Val {| Status := StatusInternalServerError; JSON := [("error", Error err)] |}
    | Val (s, None) => Val {| Status := StatusOK; JSON := [("response", s)] |}
    | Panic m => Panic m
    end /\
  chatSessions (snd (handleChat E c w)) = chatSessions (snd out) /\
  heap (snd (handleChat E c w)) = heap (snd out) /\
  clockReads (snd (handleChat E c w)) = clockReads (snd out).
Proof.
  intros Hb. cbn zeta. unfold handleChat. rewrite Hb. unfold bind.
  destruct (generateGeminiResponse E (IP c) (Message req) w) as [[[s [e|]]|m] w']; done.
Qed.

End MoreProperties.

(** X1: a session exists only for an identifier that sent a request with
    a body that parsed: every key of the store, after any run from process
    start, is the address of such a request of the run. *)
Theorem X1_no_session_without_request E evs key :
  is_Some (chatSessions (run E init evs) !! key) ->
  exists c req, Chat c ∈ evs /\ IP c = key /\ BodyParser c = inl req.
Proof.
  intros Hk. destruct (run_keys E evs init key Hk) as [[v Hv]|H]; [|done].
  cbn in Hv. by rewrite lookup_empty in Hv.
Qed.

(** Alice's session comes from Alice's request. *)
Lemma X1_no_session_without_request_witness :
  exists c req,
    Chat c ∈ [Chat (fromAlice "Is my alarm armed?")] /\
    IP c = "10.0.0.5" /\ BodyParser c = inl req.
Proof.
  apply (X1_no_session_without_request demoEnv
           [Chat (fromAlice "Is my alarm armed?")] "10.0.0.5").
  vm_compute. eexists. reflexivity.
Defined.




(** X4: a message from an identifier that has a session continues that
    session: the provider is handed the conversation the entity holds, the
    entity then holds the conversation the provider returns, stamped with
    the second clock reading of the call, whether the provider succeeded or
    not; the store and every other allocated entity are as before. *)
Theorem X4_message_continues_the_conversation E w ip msg k cl p cs :
  LookupEnv E "GEMINI_API_KEY" = Some k ->
  fst (ensureClient E k w) = Val (inl cl) ->
  chatSessions w !! ip = Some (ptrChatSession p) ->
  heap w !! p = Some cs ->
  let w' := snd (generateGeminiResponse E ip msg w) in
  chatSessions w' = chatSessions w /\
  heap w' !! p =
    Some (exchanged E (sendCalls w) (Session cs) msg (Now E (S (clockReads w)))) /\
  forall q, q <> p -> q < length (heap w) -> heap w' !! q = heap w !! q.
Proof.
  intros Hkey Hclient Hl Hp. cbn zeta.
  destruct (generateGeminiResponse_present E ip msg w k cl p cs Hkey Hclient Hl Hp)
    as (_ & Hs & Hh & _).
  rewrite Hs, Hh. split; [done|]. split.
  - apply list_lookup_insert_eq. rewrite length_app. apply lookup_lt_Some in Hp. lia.
  - intros q Hq Hlt. rewrite list_lookup_insert_ne by done. by apply lookup_app_l.
Qed.

(** Alice's second message finds the conversation of her first. *)
Lemma X4_message_continues_the_conversation_witness :
  heap (snd (generateGeminiResponse demoEnv "10.0.0.5" "And the garage?" afterAlice)) !! 0 =
    Some (exchanged demoEnv 1 (genai.StartChat model) "And the garage?" (36 * time.Minute)%Z).
Proof.
  apply (X4_message_continues_the_conversation demoEnv afterAlice "10.0.0.5"
           "And the garage?" "secret" {| genai.apiKey := "secret" |} 0
           {| Session := genai.StartChat model; LastUsed := (12 * time.Minute)%Z |}).
  - reflexivity.
  - vm_compute. reflexivity.
  - vm_compute. reflexivity.
  - vm_compute. reflexivity.
Defined.

(** X5: a message from an identifier without a session starts a new one:
    the store binds the identifier to a newly allocated entity, the
    provider is handed an empty conversation of the configured model, and
    no entity or store entry that existed before is changed. *)
Theorem X5_unknown_identifier_starts_afresh E w ip msg k cl :
  LookupEnv E "GEMINI_API_KEY" = Some k ->
  fst (ensureClient E k w) = Val (inl cl) ->
  chatSessions w !! ip = None ->
  let w' := snd (generateGeminiResponse E ip msg w) in
  chatSessions w' !! ip = Some (ptrChatSession (length (heap w))) /\
  heap w' !! length (heap w) =
    Some (exchanged E (sendCalls w) (genai.StartChat model) msg (Now E (S (clockReads w)))) /\
  (forall q, q < length (heap w) -> heap w' !! q = heap w !! q) /\
  (forall other, other <> ip -> chatSessions w' !! other = chatSessions w !! other).
Proof.
  intros Hkey Hclient Hl. cbn zeta.
  destruct (generateGeminiResponse_absent E ip msg w k cl Hkey Hclient Hl)
    as (_ & Hs & Hh & _).
  rewrite Hs, Hh. repeat split.
  - apply lookup_insert_eq.
  - by rewrite lookup_app_r, Nat.sub_diag by lia.
  - intros q Hq. by apply lookup_app_l.
  - intros other Hne. by apply lookup_insert_ne.
Qed.

(** Bob's first message, after Alice's. *)
Lemma X5_unknown_identifier_starts_afresh_witness :
  chatSessions (snd (generateGeminiResponse demoEnv "10.0.0.9" "Which camera is offline?"
                       afterAlice)) !! "10.0.0.9" = Some (ptrChatSession 1).
Proof.
  apply (X5_unknown_identifier_starts_afresh demoEnv afterAlice "10.0.0.9"
           "Which camera is offline?" "secret" {| genai.apiKey := "secret" |}).
  - reflexivity.
  - vm_compute. reflexivity.
  - vm_compute. reflexivity.
Defined.

(** X6: when the provider answers and the first part of its first
    candidate is a text, the handler answers 200 and the [response] field
    is that text, unchanged. *)
Theorem X6_reply_text_is_returned_verbatim E w c req k cl resp c0 rest content text parts :
  reachable E w ->
  BodyParser c = inl req ->
  LookupEnv E "GEMINI_API_KEY" = Some k ->
  fst (ensureClient E k w) = Val (inl cl) ->
  (forall session, snd (SendMessage E (sendCalls w) session (Message req)) = inl resp) ->
  genai.Candidates resp = c0 :: rest ->
  genai.Content_ c0 = Some content ->
  genai.Parts content = genai.Text text :: parts ->
  fst (handleChat E c w) = Val {| Status := StatusOK; JSON := [("response", text)] |}.
Proof.
  intros Hreach Hb Hkey Hclient Hsend Hc Hcontent Hparts.
  destruct (handleChat_parsed E c req w Hb) as (-> & _).
  destruct (generateGeminiResponse_result E (IP c) (Message req) w k cl (inl resp)
              (reachable_wf E w Hreach) Hkey Hclient Hsend) as (-> & _).
  unfold reply_of, firstText. by rewrite Hc, Hcontent, Hparts.
Qed.

(** Alice's first request. *)
Lemma X6_reply_text_is_returned_verbatim_witness :
  fst (handleChat demoEnv (fromAlice "Is my alarm armed?") init) =
    Val {| Status := StatusOK; JSON := [("response", "The door sensor battery is low.")] |}.
Proof.
  apply (X6_reply_text_is_returned_verbatim demoEnv init (fromAlice "Is my alarm armed?")
           {| Message := "Is my alarm armed?" |} "secret" {| genai.apiKey := "secret" |}
           (textReply "The door sensor battery is low.")
           {| genai.Content_ :=
                Some {| genai.Parts := [genai.Text "The door sensor battery is low."];
                        genai.Role := "model" |} |}
           []
           {| genai.Parts := [genai.Text "The door sensor battery is low."];
              genai.Role := "model" |}
           "The door sensor battery is low." []).
  - exists []. reflexivity.
  - reflexivity.
  - reflexivity.
  - reflexivity.
  - intros session. reflexivity.
  - reflexivity.
  - reflexivity.
  - reflexivity.
Defined.

(** X7: when the provider answers without a usable text (no candidate, or
    a first candidate whose content has no part or a first part that is not
    a text), the handler answers 500 with the text
    [no valid candidates found in response]; the identifier has its
    session all the same. *)
Theorem X7_reply_without_text_is_an_error E w c req k cl resp :
  reachable E w ->
  BodyParser c = inl req ->
  LookupEnv E "GEMINI_API_KEY" = Some k ->
  fst (ensureClient E k w) = Val (inl cl) ->
  (forall session, snd (SendMessage E (sendCalls w) session (Message req)) = inl resp) ->
  (genai.Candidates resp = [] \/
   exists c0 rest content,
     genai.Candidates resp = c0 :: rest /\ genai.Content_ c0 = Some content /\
     forall text parts, genai.Parts content <> genai.Text text :: parts) ->
  fst (handleChat E c w) =
    Val {| Status := StatusInternalServerError;
           JSON := [("error", "no valid candidates found in response")] |} /\
  is_Some (chatSessions (snd (handleChat E c w)) !! IP c).
Proof.
  intros Hreach Hb Hkey Hclient Hsend Hshape.
  destruct (handleChat_parsed E c req w Hb) as (-> & -> & _).
  destruct (generateGeminiResponse_result E (IP c) (Message req) w k cl (inl resp)
              (reachable_wf E w Hreach) Hkey Hclient Hsend) as (-> & p & cs' & -> & _).
  split; [|done]. unfold reply_of, firstText.
  destruct Hshape as [->|(c0 & rest & content & -> & -> & Hparts)]; [done|].
  destruct (genai.Parts content) as [|[text|mime data] parts]; try done.
  by destruct (Hparts text parts).
Qed.

(** A provider that answers without a candidate. *)
Lemma X7_reply_without_text_is_an_error_witness :
  fst (handleChat silentEnv (fromAlice "Is my alarm armed?") init) =
    Val {| Status := StatusInternalServerError;
           JSON := [("error", "no valid candidates found in response")] |} /\
  is_Some (chatSessions (snd (handleChat silentEnv (fromAlice "Is my alarm armed?") init))
             !! "10.0.0.5").
Proof.
  apply (X7_reply_without_text_is_an_error silentEnv init (fromAlice "Is my alarm armed?")
           {| Message := "Is my alarm armed?" |} "secret" {| genai.apiKey := "secret" |}
           {| genai.Candidates := [] |}).
  - exists []. reflexivity.
  - reflexivity.
  - reflexivity.
  - reflexivity.
  - intros session. reflexivity.
  - left. reflexivity.
Defined.

(** X8: while the key is missing from the environment the process keeps
    no state at all: after any run from process start the store is empty,
    no entity has been allocated, and neither [genai.NewClient] nor the
    provider has been called. *)
Theorem X8_without_the_key_nothing_is_kept E evs :
  LookupEnv E "GEMINI_API_KEY" = None ->
  untouched (run E init evs).
Proof.
  intros Hkey. assert (untouched init) as Hinit by done.
  revert Hinit. generalize init. induction evs as [|ev evs IH]; intros w Hw; [done|].
  rewrite run_cons. apply IH. by apply step_untouched.
Qed.

(** Three requests and a sweep without the key. *)
Lemma X8_without_the_key_nothing_is_kept_witness :
  untouched (run keylessEnv init
               [Chat (fromAlice "Is my alarm armed?"); Chat garbled; Wake;
                Chat (fromBob "Which camera is offline?")]).
Proof.
  apply (X8_without_the_key_nothing_is_kept keylessEnv). reflexivity.
Defined.

(** X9: no two identifiers share a session entity: in every world the
    process can reach, different keys of the store point to different
    objects. *)
Theorem X9_identifiers_never_share_an_entity E w k1 k2 p1 p2 :
  reachable E w ->
  k1 <> k2 ->
  chatSessions w !! k1 = Some (ptrChatSession p1) ->
  chatSessions w !! k2 = Some (ptrChatSession p2) ->
  p1 <> p2.
Proof.
  intros Hreach Hne H1 H2 <-. apply reachable_wf in Hreach as [_ Hd].
  by destruct Hne, (Hd k1 k2 p1 H1 H2).
Qed.

(** Alice and Bob. *)
Lemma X9_identifiers_never_share_an_entity_witness : 0 <> 1.
Proof.
  apply (X9_identifiers_never_share_an_entity demoEnv afterAliceAndBob
           "10.0.0.5" "10.0.0.9" 0 1).
  - exists [Chat (fromAlice "Is my alarm armed?"); Chat (fromBob "Which camera is offline?")].
    reflexivity.
  - discriminate.
  - vm_compute. reflexivity.
  - vm_compute. reflexivity.
Defined.

(** X10: the loop of [cleanupSessions] does not stop: from every world
    the process can reach, any number of its turns run to the end without
    a panic, and they are that many sweeps. *)
Theorem X10_sweeper_loop_goes_on E w n :
  reachable E w ->
  cleanupSessions E n w = (Val tt, run E w (replicate n Wake)).
Proof. intros Hreach. apply cleanupSessions_run. by apply (reachable_wf E). Qed.

(** Three turns after the requests of Alice and Bob. *)
Lemma X10_sweeper_loop_goes_on_witness :
  fst (cleanupSessions demoEnv 3 afterAliceAndBob) = Val tt.
Proof.
  rewrite (X10_sweeper_loop_goes_on demoEnv afterAliceAndBob 3).
  - reflexivity.
  - exists [Chat (fromAlice "Is my alarm armed?"); Chat (fromBob "Which camera is offline?")].
    reflexivity.
Defined.

(** X11: a sweep logs one line [Deleted inactive session for IP: key] for
    each identifier it removes, each once, and nothing else. *)
Theorem X11_sweep_logs_what_it_removes E w :
  reachable E w ->
  exists keys,
    logs (snd (sweep E w)) = logs w ++ (deleted_line <$> keys) /\
    NoDup keys /\
    forall key,
      key ∈ keys <->
      is_Some (chatSessions w !! key) /\ chatSessions (snd (sweep E w)) !! key = None.
Proof.
  intros Hreach. apply reachable_wf in Hreach as Hwf.
  eexists. split; [by apply sweep_logs|]. split.
  - apply filter_fst_NoDup, NoDup_fst_map_to_list.
  - intros key. rewrite (sweep_lookup E w key (wf_allocated w Hwf)).
    rewrite list_elem_of_fmap. split.
    + intros ([k v] & -> & [Hexp Hin]%list_elem_of_filter).
      apply elem_of_map_to_list in Hin. cbn in *. rewrite Hin.
      split; [done|]. by destruct (expired _ _ v).
    + intros [[v Hv] Hgone]. rewrite Hv in Hgone. exists (key, v).
      split; [done|]. apply list_elem_of_filter. split.
      * cbn. by destruct (expired _ _ v).
      * by apply elem_of_map_to_list.
Qed.

(** The sweep at forty-eight minutes logs Alice's removal. *)
Lemma X11_sweep_logs_what_it_removes_witness :
  exists keys,
    logs (snd (sweep demoEnv afterAliceAndBob)) =
      logs afterAliceAndBob ++ (deleted_line <$> keys) /\
    NoDup keys /\
    forall key,
      key ∈ keys <->
      is_Some (chatSessions afterAliceAndBob !! key) /\
      chatSessions (snd (sweep demoEnv afterAliceAndBob)) !! key = None.
Proof.
  apply (X11_sweep_logs_what_it_removes demoEnv afterAliceAndBob).
  exists [Chat (fromAlice "Is my alarm armed?"); Chat (fromBob "Which camera is offline?")].
  reflexivity.
Defined.

(** X12: a session that has just been used outlives the next sweep when
    that sweep reads the clock no more than thirty minutes after the
    request did: the request's identifier is in the store after the request
    and still there, with the same entity, after the sweep. *)
Theorem X12_fresh_session_outlives_the_sweep E w c req k cl :
  reachable E w ->
  BodyParser c = inl req ->
  LookupEnv E "GEMINI_API_KEY" = Some k ->
  fst (ensureClient E k w) = Val (inl cl) ->
  (Now E (S (S (clockReads w))) - Now E (S (clockReads w)) <= 30 * time.Minute)%Z ->
  let w1 := step E w (Chat c) in
  exists p,
    chatSessions w1 !! IP c = Some (ptrChatSession p) /\
    chatSessions (step E w1 Wake) !! IP c = Some (ptrChatSession p).
Proof.
  intros Hreach Hb Hkey Hclient Hgap. cbn zeta.
  pose proof (reachable_step E w (Chat c) Hreach) as Hreach1.
  apply reachable_wf in Hreach1 as Hwf1. apply reachable_wf in Hreach as Hwf.
  assert (exists p cs',
            chatSessions (step E w (Chat c)) !! IP c = Some (ptrChatSession p) /\
            heap (step E w (Chat c)) !! p = Some cs' /\
            LastUsed cs' = Now E (S (clockReads w)) /\
            clockReads (step E w (Chat c)) = S (S (clockReads w)))
    as (p & cs' & Hs & Hh & Hstamp & Hclock).
  { unfold step. destruct (handleChat_parsed E c req w Hb) as (_ & -> & -> & ->).
    destruct Hwf as [Hv _].
    destruct (chatSessions w !! IP c) as [v|] eqn:Hl.
    - destruct (Hv _ _ Hl) as (p & -> & Hp).
      destruct (lookup_lt_is_Some_2 _ _ Hp) as [cs Hcs].
      destruct (generateGeminiResponse_present E (IP c) (Message req) w k cl p cs
                  Hkey Hclient Hl Hcs) as (_ & -> & -> & ->).
      exists p. eexists. rewrite Hl. split; [done|].
      split; [apply list_lookup_insert_eq; rewrite length_app; lia|done].
    - destruct (generateGeminiResponse_absent E (IP c) (Message req) w k cl
                  Hkey Hclient Hl) as (_ & -> & -> & ->).
      exists (length (heap w)). eexists. rewrite lookup_insert_eq. split; [done|].
      split; [rewrite lookup_app_r, Nat.sub_diag by lia; done|done]. }
  exists p. split; [done|]. unfold step at 1.
  rewrite (sweep_lookup E _ (IP c) (wf_allocated _ Hwf1)), Hs.
  cbn [expired]. rewrite Hh, Sub_exceeds, Hstamp, Hclock.
  destruct (Z.gtb_spec (Now E (S (S (clockReads w))) - Now E (S (clockReads w)))
              (30 * time.Minute)); [lia|done].
Qed.

(** Alice's first request and a sweep twelve minutes later. *)
Lemma X12_fresh_session_outlives_the_sweep_witness :
  exists p,
    chatSessions (step demoEnv init (Chat (fromAlice "Is my alarm armed?"))) !! "10.0.0.5"
      = Some (ptrChatSession p) /\
    chatSessions (step demoEnv (step demoEnv init (Chat (fromAlice "Is my alarm armed?"))) Wake)
      !! "10.0.0.5" = Some (ptrChatSession p).
Proof.
  apply (X12_fresh_session_outlives_the_sweep demoEnv init (fromAlice "Is my alarm armed?")
           {| Message := "Is my alarm armed?" |} "secret" {| genai.apiKey := "secret" |}).
  - exists []. reflexivity.
  - reflexivity.
  - reflexivity.
  - reflexivity.
  - vm_compute. discriminate.
Defined.

(** X13: a session removed by a sweep does not come back: the next
    message of its identifier is bound to a newly allocated entity and the
    provider is handed an empty conversation, while the old entity lies
    unchanged and out of reach of the store. *)
Theorem X13_evicted_session_is_not_resumed E w ip msg k cl p cs :
  reachable E w ->
  chatSessions w !! ip = Some (ptrChatSession p) ->
  heap w !! p = Some cs ->
  (Now E (clockReads w) - LastUsed cs > 30 * time.Minute)%Z ->
  LookupEnv E "GEMINI_API_KEY" = Some k ->
  let w1 := step E w Wake in
  fst (ensureClient E k w1) = Val (inl cl) ->
  let w2 := snd (generateGeminiResponse E ip msg w1) in
  chatSessions w2 !! ip = Some (ptrChatSession (length (heap w))) /\
  length (heap w) <> p /\
  heap w2 !! p = Some cs /\
  heap w2 !! length (heap w) =
    Some (exchanged E (sendCalls w1) (genai.StartChat model) msg (Now E (S (clockReads w1)))).
Proof.
  intros Hreach Hl Hp Hidle Hkey. cbn zeta. intros Hclient.
  apply reachable_wf in Hreach as Hwf.
  assert (chatSessions (step E w Wake) !! ip = None) as Hgone.
  { unfold step. rewrite (sweep_lookup E w ip (wf_allocated w Hwf)), Hl.
    cbn [expired]. rewrite Hp, Sub_exceeds.
    by rewrite (proj2 (Z.gtb_gt _ _)) by lia. }
  assert (heap (step E w Wake) = heap w) as Hheap.
  { unfold step. by destruct (sweep_post E w) as ([-> _ _] & _). }
  destruct (generateGeminiResponse_absent E ip msg (step E w Wake) k cl
              Hkey Hclient Hgone) as (_ & Hs & Hh & _).
  rewrite Hs, Hh, Hheap. pose proof (lookup_lt_Some _ _ _ Hp) as Hlt.
  split; [apply lookup_insert_eq|]. split; [lia|]. split.
  - by apply lookup_app_l_Some.
  - by rewrite lookup_app_r, Nat.sub_diag by lia.
Qed.

(** Alice, removed by the sweep at forty-eight minutes, writes again. *)
Lemma X13_evicted_session_is_not_resumed_witness :
  chatSessions (snd (generateGeminiResponse demoEnv "10.0.0.5" "Hello again"
                       (step demoEnv afterAliceAndBob Wake))) !! "10.0.0.5"
    = Some (ptrChatSession 2) /\
  2 <> 0.
Proof.
  destruct (X13_evicted_session_is_not_resumed demoEnv afterAliceAndBob "10.0.0.5"
              "Hello again" "secret" {| genai.apiKey := "secret" |} 0
              {| Session := genai.StartChat model; LastUsed := (12 * time.Minute)%Z |})
    as (H1 & H2 & _).
  - exists [Chat (fromAlice "Is my alarm armed?"); Chat (fromBob "Which camera is offline?")].
    reflexivity.
  - vm_compute. reflexivity.
  - vm_compute. reflexivity.
  - vm_compute. reflexivity.
  - reflexivity.
  - vm_compute. reflexivity.
  - split; [exact H1|exact H2].
Defined.

(** X14: a first candidate without content (a nil [*Content]) is not
    handled: the handler panics on it instead of answering, after the
    identifier's session has been stored. *)
Theorem X14_candidate_without_content_panics E w c req k cl resp c0 rest :
  reachable E w ->
  BodyParser c = inl req ->
  LookupEnv E "GEMINI_API_KEY" = Some k ->
  fst (ensureClient E k w) = Val (inl cl) ->
  (forall session, snd (SendMessage E (sendCalls w) session (Message req)) = inl resp) ->
  genai.Candidates resp = c0 :: rest ->
  genai.Content_ c0 = None ->
  fst (handleChat E c w) = Panic "invalid memory address or nil pointer dereference" /\
  is_Some (chatSessions (snd (handleChat E c w)) !! IP c).
Proof.
  intros Hreach Hb Hkey Hclient Hsend Hc Hcontent.
  destruct (handleChat_parsed E c req w Hb) as (-> & -> & _).
  destruct (generateGeminiResponse_result E (IP c) (Message req) w k cl (inl resp)
              (reachable_wf E w Hreach) Hkey Hclient Hsend) as (-> & p & cs' & -> & _).
  split; [|done]. unfold reply_of, firstText. by rewrite Hc, Hcontent.
Qed.

(** A provider whose candidate has no content. *)
Lemma X14_candidate_without_content_panics_witness :
  fst (handleChat blockedEnv (fromAlice "Is my alarm armed?") init) =
    Panic "invalid memory address or nil pointer dereference" /\
  is_Some (chatSessions (snd (handleChat blockedEnv (fromAlice "Is my alarm armed?") init))
             !! "10.0.0.5").
Proof.
  apply (X14_candidate_without_content_panics blockedEnv init (fromAlice "Is my alarm armed?")
           {| Message := "Is my alarm armed?" |} "secret" {| genai.apiKey := "secret" |}
           {| genai.Candidates := [{| genai.Content_ := None |}] |}
           {| genai.Content_ := None |} []).
  - exists []. reflexivity.
  - reflexivity.
  - reflexivity.
  - reflexivity.
  - intros session. reflexivity.
  - reflexivity.
  - reflexivity.
Defined.


(** ** The reply formatting of [src/main.go] *)















(** Runs of one byte under a pattern that is a run of that byte. *)

Lemma repeat_byte_S c n :
  repeat_string (String c "") (S n) = String c (repeat_string (String c "") n).
Proof. reflexivity. Qed.

Lemma length_repeat_byte c n : String.length (repeat_string (String c "") n) = n.
Proof. induction n as [|n IH]; [done|]. rewrite repeat_byte_S. cbn. by rewrite IH. Qed.



















(** ** Calls of the provider *)

Lemma exchange_sends E p msg w :
  sendCalls w <= sendCalls (snd (exchange E p msg w)) <= S (sendCalls w).
Proof.
  unfold_prims. cbn. destruct (heap w !! p) as [cs|] eqn:Hp; cbn; [|lia].
  rewrite list_lookup_insert_eq by by eapply lookup_lt_Some. cbn.
  destruct (SendMessage E (sendCalls w) (Session cs) msg) as [session' [resp|err]]; cbn.
  - rewrite firstText_world. cbn. lia.
  - lia.
Qed.

Lemma generateGeminiResponse_sends E ip msg w :
  post (generateGeminiResponse E ip msg) w (fun _ w' =>
    sendCalls w <= sendCalls w' <= S (sendCalls w)).
Proof.
  unfold generateGeminiResponse.
  destruct (LookupEnv E "GEMINI_API_KEY") as [k|]; [|unfold post; cbn; lia].
  apply post_bind. eapply post_mono; [apply ensureClient_same|].
  intros [[c|err]|m] w1 [_ _ _ Sn]; cbn; try (unfold post; cbn; lia); rewrite <- Sn; try lia.
  apply post_bind. eapply post_mono; [apply getOrCreate_spec|].
  intros [[v b]|m] w2 (_ & _ & (_ & _ & _ & Hsends) & _); cbn; rewrite <- Hsends; [|lia].
  apply post_bind. unfold post at 1. destruct v as [p|u]; cbn; [|lia].
  apply exchange_sends.
Qed.

Lemma handleChat_sends E c w :
  sendCalls w <= sendCalls (snd (handleChat E c w)) <= S (sendCalls w).
Proof.
  unfold handleChat. destruct (BodyParser c) as [req|err]; [|cbn; lia].
  pose proof (generateGeminiResponse_sends E (IP c) (Message req) w) as H.
  unfold post in H. unfold bind.
  by destruct (generateGeminiResponse E (IP c) (Message req) w) as [[[s [e|]]|m] w'].
Qed.

Lemma sweepEntry_sends now key v w :
  sendCalls (snd (sweepEntry now key v w)) = sendCalls w.
Proof.
  unfold sweepEntry. unfold_prims. destruct v as [p|u]; cbn; [|done].
  destruct (heap w !! p) as [cs|]; cbn; [|done].
  by destruct (time.Sub now (LastUsed cs) >? 30 * time.Minute)%Z.
Qed.

Lemma Range_loop_sends now entries w :
  sendCalls (snd (Range_loop (sweepEntry now) entries w)) = sendCalls w.
Proof.
  revert w. induction entries as [|[key v] entries IH]; intros w; [done|].
  cbn [Range_loop]. unfold bind.
  pose proof (sweepEntry_sends now key v w) as H.
  destruct (sweepEntry now key v w) as [[[|]|m] w1]; cbn in *; try done.
  by rewrite IH.
Qed.

Lemma sweep_sends E w : sendCalls (snd (sweep E w)) = sendCalls w.
Proof.
  unfold sweep, bind, time_Now, Range. cbn.
  by rewrite (Range_loop_sends _ _ (tick_clock w)).
Qed.

(** X20: the provider is called at most once for each request and never
    by the sweeper: after any run from process start the number of
    [SendMessage] calls is at most the number of requests of the run. *)
Theorem X20_provider_called_at_most_once_per_request E evs :
  sendCalls (run E init evs) <= requests evs.
Proof.
  assert (forall w, sendCalls (run E w evs) <= sendCalls w + requests evs) as H.
  { induction evs as [|ev evs IH]; intros w; [cbn; lia|].
    rewrite run_cons. specialize (IH (step E w ev)).
    destruct ev as [c|]; cbn [requests step] in *.
    - pose proof (handleChat_sends E c w). lia.
    - rewrite sweep_sends in IH. lia. }
  apply (H init).
Qed.
